(** * Non-routable-domain service of the AdGuard VPN extension

    A shallow embedding of [src/background/routability/NonRoutableService.ts]
    and the properties of its correlator, list store and classifier.

    The class instance is a record [Service]; its methods are computations in
    a small state-and-exception monad [M].  The collaborators the class only
    calls ([notifier], [tabs], the persistent storage) appear as entries of an
    effect log kept in the instance record, and the helpers it imports
    ([getHostname], [isIP], [ipaddr]) are parameters of the development. *)

From Stdlib Require Import ZArith Ascii String DecimalNat DecimalString List Lia.
From stdpp Require Import base option list gmap strings fin_maps.
From Equations Require Import Equations.
Import ListNotations.

#[local] Open Scope string_scope.
#[local] Open Scope list_scope.
#[local] Open Scope Z_scope.

(** ** JavaScript values *)

(** Truthiness of the JavaScript values the service tests with [!], [&&]
    and [if]: a number is falsy when it is [0], a string when it is empty,
    [undefined] and [null] always. *)
Module Js.

Definition truthy_number (n : Z) : bool := negb (n =? 0).

Definition truthy_string (s : string) : bool :=
  match s with
  | EmptyString => false
  | String _ _ => true
  end.

Definition truthy_opt {A : Type} (truthy : A → bool) (v : option A) : bool :=
  match v with
  | Some a => truthy a
  | None => false
  end.

End Js.

(** ** Data model *)

(** [type HostnameData = { timeAdded: number, tabId?: number, url?: string }] *)
Module HostnameData.
Record t : Type := Build {
  timeAdded : Z;
  tabId : option Z;
  url : option string;
}.
End HostnameData.

(** The fields of [browser.WebRequest.OnErrorOccurredDetailsType] and
    [OnHeadersReceivedDetailsType] that [handleWebRequestErrors] reads.
    [statusCode] is absent from error details and [error] from
    headers-received details. *)
Module Details.
Record t : Type := Build {
  url : string;
  type : string;
  tabId : Z;
  statusCode : option Z;
  error : option string;
}.
End Details.

(** Calls that leave the service, in the order they are made.
    [CallAddHostname] records an entry into [addHostname] itself. *)
Inductive Effect : Type :=
| CallAddHostname (hostname : string)
| NotifyListeners (hostname : string)
| TabsUpdate (tabId : Z) (url : string)
| StorageSet (value : list string).

(** The closure state of lodash's [throttle(func, wait)], which is
    [debounce(func, wait, { leading: true, maxWait: wait, trailing: true })].
    [timerId] holds the time at which the pending timer is due. *)
Module Throttle.
Record t : Type := Build {
  lastArgs : bool;
  timerId : option Z;
  lastCallTime : option Z;
  lastInvokeTime : Z;
}.
Definition initial : t :=
  {| lastArgs := false; timerId := None; lastCallTime := None; lastInvokeTime := 0 |}.
End Throttle.

(** The two pending-event stores of the instance.  The handlers pass one of
    them by reference to [getByHostname] and [clearStaleValues]. *)
Inductive MapRef : Type :=
| WebRequestErrorHostnames
| NonRoutableHostnames.

Definition NON_ROUTABLE_MAX_LENGTH : nat := 1000.
Definition CLEAR_CAPACITY : nat := 50.
Definition STORAGE_UPDATE_TIMEOUT_MS : Z := 1000.
Definition LOCALHOST : string := "localhost".
Definition VALUE_TTL_MS : Z := 1000.
Definition MAIN_FRAME : string := "main_frame".
Definition ERROR : string := "net::ERR_TUNNEL_CONNECTION_FAILED".
Definition STATUS_CODE : Z := 502.

(** ** The list trimming loop of [updateStorage]

    [while (list.length > NON_ROUTABLE_MAX_LENGTH) list = list.slice(CLEAR_CAPACITY)] *)
Equations? trimList (l : list string) : list string by wf (length l) lt :=
  trimList l with decide (NON_ROUTABLE_MAX_LENGTH < length l)%nat => {
    | left _ := trimList (drop CLEAR_CAPACITY l);
    | right _ := l }.
Proof.
  rewrite length_drop. unfold NON_ROUTABLE_MAX_LENGTH, CLEAR_CAPACITY in *. lia.
Qed.

(** Classification of effects, used to state "exactly once". *)
Definition is_addHostname (e : Effect) : bool :=
  match e with CallAddHostname _ => true | _ => false end.

Definition is_notify (e : Effect) : bool :=
  match e with NotifyListeners _ => true | _ => false end.

Definition is_tabsUpdate (e : Effect) : bool :=
  match e with TabsUpdate _ _ => true | _ => false end.

Definition is_storageSet (e : Effect) : bool :=
  match e with StorageSet _ => true | _ => false end.

(** ** Imported helpers

    What the service imports and this development does not look inside.
    [getHostname] comes from [common/url-utils] and yields [null] when no
    hostname can be extracted.  [isIP] is the [is-ip] package.
    [ipaddr_parse], [ipaddr_parseCIDR] and [ipaddr_match] are [ipaddr.parse],
    [ipaddr.parseCIDR] and [IPv4.match] of [ipaddr.js]; [parseCIDR] throws on
    a malformed range, which is [None] here, while [parse] is only applied to
    strings that [isIP] accepts and [match] only to the configured ranges.
    [NON_ROUTABLE_CIDR_NETS] is the range table of [./constants]. *)
Inductive Addr (V4 V6 : Type) : Type :=
| IPv4 (a : V4)
| IPv6 (a : V6).
Arguments IPv4 {V4 V6} a.
Arguments IPv6 {V4 V6} a.

Class Imports : Type := {
  V4 : Type;
  V6 : Type;
  CIDR : Type;
  getHostname : string → option string;
  isIP : string → bool;
  ipaddr_parse : string → Addr V4 V6;
  ipaddr_parseCIDR : string → option CIDR;
  ipaddr_match : V4 → CIDR → bool;
  NON_ROUTABLE_CIDR_NETS : list string;
}.

Section NonRoutableService.

Context `{Imports}.

(** ** The instance *)

Record Service : Type := mkService {
  nonRoutableList : list string;
  parsedCIDRList : list CIDR;
  webRequestErrorHostnames : gmap string HostnameData.t;
  nonRoutableHostnames : gmap string HostnameData.t;
  updateStorage_throttle : Throttle.t;
  effects : list Effect;
  clock : Z;
}.

Definition set_nonRoutableList (l : list string) (s : Service) : Service :=
  mkService l (parsedCIDRList s) (webRequestErrorHostnames s)
    (nonRoutableHostnames s) (updateStorage_throttle s) (effects s) (clock s).

Definition set_webRequestErrorHostnames (m : gmap string HostnameData.t)
    (s : Service) : Service :=
  mkService (nonRoutableList s) (parsedCIDRList s) m
    (nonRoutableHostnames s) (updateStorage_throttle s) (effects s) (clock s).

Definition set_nonRoutableHostnames (m : gmap string HostnameData.t)
    (s : Service) : Service :=
  mkService (nonRoutableList s) (parsedCIDRList s) (webRequestErrorHostnames s)
    m (updateStorage_throttle s) (effects s) (clock s).

Definition set_throttle (t : Throttle.t) (s : Service) : Service :=
  mkService (nonRoutableList s) (parsedCIDRList s) (webRequestErrorHostnames s)
    (nonRoutableHostnames s) t (effects s) (clock s).

Definition set_clock (t : Z) (s : Service) : Service :=
  mkService (nonRoutableList s) (parsedCIDRList s) (webRequestErrorHostnames s)
    (nonRoutableHostnames s) (updateStorage_throttle s) (effects s) t.

Definition log_effect (e : Effect) (s : Service) : Service :=
  mkService (nonRoutableList s) (parsedCIDRList s) (webRequestErrorHostnames s)
    (nonRoutableHostnames s) (updateStorage_throttle s) (effects s ++ [e]) (clock s).

(** [new NonRoutableService(storage)]: every field initialiser, then
    [NON_ROUTABLE_CIDR_NETS.map((net) => ipaddr.parseCIDR(net))], which
    throws at the first range that does not parse. *)
Definition constructor : option Service :=
  parsed ← mapM ipaddr_parseCIDR NON_ROUTABLE_CIDR_NETS;
  Some (mkService [] parsed ∅ ∅ Throttle.initial [] 0).

(** ** The method monad: instance state, with [None] for an uncaught
    exception. *)
Definition M (A : Type) : Type := Service → option (A * Service).

#[global] Instance M_ret : MRet M := λ A a s, Some (a, s).

#[global] Instance M_bind : MBind M := λ A B f m s,
  match m s with
  | Some (a, s') => f a s'
  | None => None
  end.

Definition throw {A : Type} : M A := λ _, None.
Definition gets {A : Type} (f : Service → A) : M A := λ s, Some (f s, s).
Definition modify (f : Service → Service) : M unit := λ s, Some ((), f s).

(** [Date.now()]: the time of the event being handled. *)
Definition Date_now : M Z := gets clock.

Definition emit (e : Effect) : M unit := modify (log_effect e).

Definition readMap (r : MapRef) : M (gmap string HostnameData.t) :=
  match r with
  | WebRequestErrorHostnames => gets webRequestErrorHostnames
  | NonRoutableHostnames => gets nonRoutableHostnames
  end.

Definition writeMap (r : MapRef) (m : gmap string HostnameData.t) : M unit :=
  match r with
  | WebRequestErrorHostnames => modify (set_webRequestErrorHostnames m)
  | NonRoutableHostnames => modify (set_nonRoutableHostnames m)
  end.

(** [array.forEach(callback)] *)
Fixpoint forEach {A : Type} (l : list A) (callback : A → M unit) : M unit :=
  match l with
  | [] => mret ()
  | x :: l' => callback x ;; forEach l' callback
  end.

(** ** Pending-event stores *)

(** [getByHostname]: the stored values are objects, hence truthy, so a
    present key is always returned after it has been deleted. *)
Definition getByHostname (hostname : string) (storage : MapRef)
    : M (option HostnameData.t) :=
  m ← readMap storage;
  match m !! hostname with
  | Some value =>
      writeMap storage (delete hostname m) ;;
      mret (Some value)
  | None => mret None
  end.

(** [Object.keys(storage)] for a [Map]: the own enumerable string-keyed
    properties of the object.  The entries of a [Map] live in its internal
    slot and are no properties, and the service defines no property on its
    stores, so the result is the empty array whatever the store holds. *)
Definition Object_keys (storage : gmap string HostnameData.t) : list string := [].

(** [clearStaleValues]; reading [timeAdded] of [undefined] throws. *)
Definition clearStaleValues (storage : MapRef) : M unit :=
  currentTime ← Date_now;
  m ← readMap storage;
  let storageKeys := Object_keys m in
  forEach storageKeys (λ key,
    m ← readMap storage;
    match m !! key with
    | None => throw
    | Some value =>
        if HostnameData.timeAdded value <? currentTime - VALUE_TTL_MS
        then writeMap storage (delete key m)
        else mret ()
    end).

(** ** List store *)

(** The function wrapped by [throttle]: the trimming loop runs when the
    function is invoked, then [storage.set] is issued with the list. *)
Definition updateStorage_func : M unit :=
  l ← gets nonRoutableList;
  modify (set_nonRoutableList (trimList l)) ;;
  l' ← gets nonRoutableList;
  emit (StorageSet l').

(** lodash [debounce] internals, for [leading], [trailing] and [maxing] all
    true and [maxWait = wait = STORAGE_UPDATE_TIMEOUT_MS]. *)
Definition shouldInvoke (t : Throttle.t) (time : Z) : bool :=
  match Throttle.lastCallTime t with
  | None => true
  | Some lastCall =>
      (STORAGE_UPDATE_TIMEOUT_MS <=? time - lastCall)
      || (time - lastCall <? 0)
      || (STORAGE_UPDATE_TIMEOUT_MS <=? time - Throttle.lastInvokeTime t)
  end.

Definition remainingWait (t : Throttle.t) (time : Z) : Z :=
  match Throttle.lastCallTime t with
  | None => 0
  | Some lastCall =>
      Z.min (STORAGE_UPDATE_TIMEOUT_MS - (time - lastCall))
            (STORAGE_UPDATE_TIMEOUT_MS - (time - Throttle.lastInvokeTime t))
  end.

Definition invokeFunc (time : Z) : M unit :=
  t ← gets updateStorage_throttle;
  modify (set_throttle
    (Throttle.Build false (Throttle.timerId t) (Throttle.lastCallTime t) time)) ;;
  updateStorage_func.

Definition leadingEdge (time : Z) : M unit :=
  t ← gets updateStorage_throttle;
  modify (set_throttle
    (Throttle.Build (Throttle.lastArgs t) (Some (time + STORAGE_UPDATE_TIMEOUT_MS))
       (Throttle.lastCallTime t) time)) ;;
  invokeFunc time.

Definition trailingEdge (time : Z) : M unit :=
  t ← gets updateStorage_throttle;
  modify (set_throttle
    (Throttle.Build (Throttle.lastArgs t) None
       (Throttle.lastCallTime t) (Throttle.lastInvokeTime t))) ;;
  if Throttle.lastArgs t
  then invokeFunc time
  else mret ().

(** The callback of the pending timer. *)
Definition timerExpired : M unit :=
  time ← Date_now;
  t ← gets updateStorage_throttle;
  if shouldInvoke t time
  then trailingEdge time
  else modify (set_throttle
         (Throttle.Build (Throttle.lastArgs t) (Some (time + remainingWait t time))
            (Throttle.lastCallTime t) (Throttle.lastInvokeTime t))).

(** [this.updateStorage()], the throttled function. *)
Definition updateStorage : M unit :=
  time ← Date_now;
  t ← gets updateStorage_throttle;
  let isInvoking := shouldInvoke t time in
  modify (set_throttle
    (Throttle.Build true (Throttle.timerId t) (Some time) (Throttle.lastInvokeTime t))) ;;
  if isInvoking
  then
    match Throttle.timerId t with
    | None => leadingEdge time
    | Some _ =>
        t' ← gets updateStorage_throttle;
        modify (set_throttle
          (Throttle.Build (Throttle.lastArgs t') (Some (time + STORAGE_UPDATE_TIMEOUT_MS))
             (Throttle.lastCallTime t') (Throttle.lastInvokeTime t'))) ;;
        invokeFunc time
    end
  else
    match Throttle.timerId t with
    | None =>
        t' ← gets updateStorage_throttle;
        modify (set_throttle
          (Throttle.Build (Throttle.lastArgs t') (Some (time + STORAGE_UPDATE_TIMEOUT_MS))
             (Throttle.lastCallTime t') (Throttle.lastInvokeTime t')))
    | Some _ => mret ()
    end.

Definition addHostname (hostname : string) : M unit :=
  emit (CallAddHostname hostname) ;;
  l ← gets nonRoutableList;
  if decide (hostname ∈ l)
  then mret ()
  else
    modify (set_nonRoutableList (l ++ [hostname])) ;;
    updateStorage.

Definition addNewNonRoutableDomain (hostname : string) : M unit :=
  addHostname hostname ;;
  emit (NotifyListeners hostname).

Definition getNonRoutableList : M (list string) := gets nonRoutableList.

(** ** Event correlator *)

(** The test [webRequestError && webRequestError.tabId && webRequestError.url]
    of the report handler: the tab and URL of the entry when all three
    conjuncts are truthy. *)
Definition tabId_and_url (webRequestError : option HostnameData.t)
    : option (Z * string) :=
  match webRequestError with
  | Some (HostnameData.Build _ (Some tabId) (Some url)) =>
      if Js.truthy_number tabId && Js.truthy_string url
      then Some (tabId, url)
      else None
  | _ => None
  end.

Definition handleNonRoutableDomains (nonRoutableDomain : string) : M unit :=
  if negb (Js.truthy_string nonRoutableDomain) then mret () else
  let hostname := getHostname nonRoutableDomain in
  if negb (Js.truthy_opt Js.truthy_string hostname) then mret () else
  match hostname with
  | None => mret ()
  | Some hostname =>
      webRequestError ← getByHostname hostname WebRequestErrorHostnames;
      match tabId_and_url webRequestError with
      | Some (tabId, url) =>
          addNewNonRoutableDomain hostname ;;
          emit (TabsUpdate tabId url)
      | None =>
          now ← Date_now;
          m ← readMap NonRoutableHostnames;
          writeMap NonRoutableHostnames
            (<[hostname := HostnameData.Build now None None]> m)
      end ;;
      clearStaleValues NonRoutableHostnames
  end.

(** [(error === ERROR || statusCode === STATUS_CODE) && type === MAIN_FRAME] *)
Definition triggers (details : Details.t) : bool :=
  (bool_decide (Details.error details = Some ERROR)
   || bool_decide (Details.statusCode details = Some STATUS_CODE))
  && bool_decide (Details.type details = MAIN_FRAME).

Definition handleWebRequestErrors (details : Details.t) : M unit :=
  let url := Details.url details in
  let tabId := Details.tabId details in
  if triggers details then
    let hostname := getHostname url in
    if negb (Js.truthy_opt Js.truthy_string hostname) then mret () else
    match hostname with
    | None => mret ()
    | Some hostname =>
        result ← getByHostname hostname NonRoutableHostnames;
        match result with
        | Some _ =>
            addNewNonRoutableDomain hostname ;;
            emit (TabsUpdate tabId url)
        | None =>
            now ← Date_now;
            m ← readMap WebRequestErrorHostnames;
            writeMap WebRequestErrorHostnames
              (<[hostname := HostnameData.Build now (Some tabId) (Some url)]> m)
        end ;;
        clearStaleValues WebRequestErrorHostnames
    end
  else mret ().

(** ** Classifier *)

Definition isUrlRoutable (url : string) : M bool :=
  let hostname := getHostname url in
  if negb (Js.truthy_opt Js.truthy_string hostname) then mret true else
  match hostname with
  | None => mret true
  | Some hostname =>
      l ← gets nonRoutableList;
      if bool_decide (hostname = LOCALHOST) || bool_decide (hostname ∈ l)
      then mret false
      else if negb (isIP hostname) then mret true
      else
        match ipaddr_parse hostname with
        | IPv6 _ => mret true
        | IPv4 addr =>
            cidrs ← gets parsedCIDRList;
            mret (negb (existsb (λ parsedCIDR, ipaddr_match addr parsedCIDR) cidrs))
        end
  end.

(** ** Start-up and the event loop *)

(** [init]: the stored list, or the empty one when the key is absent. *)
Definition init (stored : option (list string)) : M unit :=
  modify (set_nonRoutableList (default [] stored)).

(** What the runtime delivers to the instance: a report from the notifier, a
    [webRequest] event, or the expiry of the timer that [updateStorage] set. *)
Inductive Event : Type :=
| NonRoutableDomainFound (nonRoutableDomain : string)
| WebRequest (details : Details.t)
| TimerFired.

(** Run a handler with the clock reading [time]. *)
Definition at_time {A : Type} (time : Z) (handler : M A) : M A :=
  modify (set_clock time) ;; handler.

Definition dispatch (time : Z) (ev : Event) : M unit :=
  at_time time
    match ev with
    | NonRoutableDomainFound d => handleNonRoutableDomains d
    | WebRequest details => handleWebRequestErrors details
    | TimerFired =>
        t ← gets updateStorage_throttle;
        match Throttle.timerId t with
        | Some due => if due <=? time then timerExpired else mret ()
        | None => mret ()
        end
    end.

(** A run of the event loop over timed events, from left to right. *)
Fixpoint run (evs : list (Z * Event)) : M unit :=
  match evs with
  | [] => mret ()
  | (time, ev) :: evs' => dispatch time ev ;; run evs'
  end.

(** The instance after the function wrapped by [throttle] has run, with [t]
    as the state of the wrapper. *)
Definition flushed (t : Throttle.t) (s : Service) : Service :=
  let l := trimList (nonRoutableList s) in
  log_effect (StorageSet l) (set_nonRoutableList l (set_throttle t s)).


(** ** Statements about the correlator *)

(** Neither store holds an entry for [h]. *)
Definition no_pending (h : string) (s : Service) : Prop :=
  webRequestErrorHostnames s !! h = None ∧ nonRoutableHostnames s !! h = None.

(** A report [d] and a transport failure [details] that are both for the
    hostname [h] and both pass the guards of their handlers, arriving at an
    instance that holds nothing for [h] yet. *)
Definition paired (h d : string) (details : Details.t) (s : Service) : Prop :=
  Js.truthy_string d = true
  ∧ getHostname d = Some h
  ∧ getHostname (Details.url details) = Some h
  ∧ Js.truthy_string h = true
  ∧ triggers details = true
  ∧ no_pending h s.

Definition within_ttl (t1 t2 : Z) : Prop := t1 ≤ t2 ≤ t1 + VALUE_TTL_MS.

(** Between [s] and [s'] nothing left the service and the list is the same. *)
Definition silent (s s' : Service) : Prop :=
  effects s' = effects s ∧ nonRoutableList s' = nonRoutableList s.

(** Between [s] and [s'] there was exactly one call of [addHostname], for
    [h], exactly one notification, for [h], and exactly one [tabs.update],
    of tab [tabId] to [url]; [h] is on the list afterwards. *)
Definition commits (h : string) (tabId : Z) (url : string) (s s' : Service) : Prop :=
  ∃ new,
    effects s' = effects s ++ new
    ∧ List.filter is_addHostname new = [CallAddHostname h]
    ∧ List.filter is_notify new = [NotifyListeners h]
    ∧ List.filter is_tabsUpdate new = [TabsUpdate tabId url]
    ∧ h ∈ nonRoutableList s'.

(** Order independence of the correlation for one pair: in either order the
    first handler stays silent and the second one commits, after which
    nothing is pending for [h]. *)
Definition order_independent (h d : string) (details : Details.t)
    (t1 t2 : Z) (s : Service) : Prop :=
  (∃ s1 s2,
      dispatch t1 (WebRequest details) s = Some ((), s1)
      ∧ dispatch t2 (NonRoutableDomainFound d) s1 = Some ((), s2)
      ∧ silent s s1
      ∧ commits h (Details.tabId details) (Details.url details) s1 s2
      ∧ no_pending h s2)
  ∧ (∃ s1 s2,
      dispatch t1 (NonRoutableDomainFound d) s = Some ((), s1)
      ∧ dispatch t2 (WebRequest details) s1 = Some ((), s2)
      ∧ silent s s1
      ∧ commits h (Details.tabId details) (Details.url details) s1 s2
      ∧ no_pending h s2).


(** ** Statements about the classifier *)

(** Hostname extraction fails: [getHostname] gives [null] or the empty
    string, which is what [!hostname] tests. *)
Definition extraction_fails (u : string) : Prop :=
  getHostname u = None ∨ getHostname u = Some "".

Definition extractHostname (u : string) : option string :=
  match getHostname u with
  | Some (String c h) => Some (String c h)
  | _ => None
  end.

(** The decision sequence as the specification words it: fail open when no
    hostname can be extracted; not routable for the loopback name or a
    listed hostname; routable for anything that is not an IP literal;
    routable for an IPv6 literal; otherwise not routable exactly when some
    configured range matches. *)
Definition routable_by_spec (url : string) (s : Service) : bool :=
  match extractHostname url with
  | None => true
  | Some hostname =>
      if decide (hostname = LOCALHOST ∨ hostname ∈ nonRoutableList s) then false
      else if isIP hostname then
        match ipaddr_parse hostname with
        | IPv6 _ => true
        | IPv4 addr =>
            if decide (Exists (λ range, ipaddr_match addr range = true) (parsedCIDRList s))
            then false
            else true
        end
      else true
  end.


(** ** Statements about the list store *)

(** The invariant the specification states for the list. *)
Definition list_invariant (s : Service) : Prop :=
  NoDup (nonRoutableList s)
  ∧ (length (nonRoutableList s) ≤ NON_ROUTABLE_MAX_LENGTH)%nat.

(** Notifications are no more than entries of the list: what "at most one
    notification per newly committed entry" comes to for an instance that
    started with an empty list and has evicted nothing. *)
Definition notifications_within_entries (s : Service) : Prop :=
  (length (List.filter is_notify (effects s)) ≤ length (nonRoutableList s))%nat.

(** Calls of [addHostname], each at its own time. *)
Definition addAll (calls : list (Z * string)) : M unit :=
  forEach calls (λ call, at_time (fst call) (addHostname (snd call))).


(** ** Statements about runs of the event loop *)

(** The store a reference denotes. *)
Definition storeOf (r : MapRef) (s : Service) : gmap string HostnameData.t :=
  match r with
  | WebRequestErrorHostnames => webRequestErrorHostnames s
  | NonRoutableHostnames => nonRoutableHostnames s
  end.

Definition otherStore (r : MapRef) : MapRef :=
  match r with
  | WebRequestErrorHostnames => NonRoutableHostnames
  | NonRoutableHostnames => WebRequestErrorHostnames
  end.

(** No hostname is pending in both stores. *)
Definition stores_disjoint (s : Service) : Prop :=
  ∀ h, webRequestErrorHostnames s !! h = None ∨ nonRoutableHostnames s !! h = None.

(** The hostname an event is about, when it passes the guards of its
    handler. *)
Definition event_hostname (ev : Event) : option string :=
  match ev with
  | NonRoutableDomainFound d =>
      if Js.truthy_string d then extractHostname d else None
  | WebRequest details =>
      if triggers details then extractHostname (Details.url details) else None
  | TimerFired => None
  end.

(** The list last handed to [storage.set], [l0] being what the storage
    held before the first effect. *)
Definition last_stored (l0 : list string) (es : list Effect) : list string :=
  fold_left (λ stored e, match e with StorageSet l => l | _ => stored end) es l0.

(** The throttle has a timer running and a call waiting for it. *)
Definition flush_scheduled (s : Service) : Prop :=
  is_Some (Throttle.timerId (updateStorage_throttle s))
  ∧ Throttle.lastArgs (updateStorage_throttle s) = true.

(** Either a flush is scheduled, or the list is what the storage holds and
    is within the maximum. *)
Definition persisted_or_scheduled (l0 : list string) (s : Service) : Prop :=
  flush_scheduled s
  ∨ (last_stored l0 (effects s) = nonRoutableList s
     ∧ (length (nonRoutableList s) ≤ NON_ROUTABLE_MAX_LENGTH)%nat).

(** The new effects of a step count equally many calls of [addHostname],
    notifications and calls of [tabs.update]. *)
Definition balanced (new : list Effect) : Prop :=
  length (List.filter is_addHostname new) = length (List.filter is_notify new)
  ∧ length (List.filter is_notify new) = length (List.filter is_tabsUpdate new).

(** The run [evs] holds a report, respectively a transport failure, that
    passes the guards of its handler and is about the hostname [k]. *)
Definition reported_in (evs : list (Z * Event)) (k : string) : Prop :=
  ∃ t d, (t, NonRoutableDomainFound d) ∈ evs
         ∧ event_hostname (NonRoutableDomainFound d) = Some k.

Definition failed_in (evs : list (Z * Event)) (k : string) : Prop :=
  ∃ t details, (t, WebRequest details) ∈ evs
               ∧ event_hostname (WebRequest details) = Some k.

(** The hostname [k] is on the list or [addHostname] was called for it. *)
Definition committed (k : string) (s : Service) : Prop :=
  k ∈ nonRoutableList s ∨ CallAddHostname k ∈ effects s.


(** ** DNS server addresses ([options/components/General/DnsSettings/validate.ts]) *)

Definition DOT_PREFIX : string := "tls://".

(** [normalizeDnsServerAddress] *)
Definition normalizeDnsServerAddress (address : string) : string :=
  if isIP address || String.prefix DOT_PREFIX address
  then address
  else String.append DOT_PREFIX address.


End NonRoutableService.

(** ** A concrete instance of the imports

    A small stand-in for [url-utils], [is-ip] and [ipaddr.js], enough to run
    the service on concrete events: hostnames are what follows an optional
    [http://] or [https://] up to the next slash, and addresses are decimal
    dotted quads. *)
Module Demo.

Definition strip_scheme (u : string) : string :=
  if String.prefix "http://" u then String.substring 7 (String.length u - 7) u
  else if String.prefix "https://" u then String.substring 8 (String.length u - 8) u
  else u.

Definition upto_slash (u : string) : string :=
  match String.index 0 "/" u with
  | Some i => String.substring 0 i u
  | None => u
  end.

Definition hostname_of (u : string) : option string :=
  match u with
  | EmptyString => None
  | _ => Some (upto_slash (strip_scheme u))
  end.

Fixpoint split_on (sep : Ascii.ascii) (cur : string) (s : string) : list string :=
  match s with
  | EmptyString => [cur]
  | String c s' =>
      if Ascii.eqb c sep then cur :: split_on sep "" s'
      else split_on sep (String.append cur (String c "")) s'
  end.

Definition digit (c : Ascii.ascii) : option Z :=
  let n := Z.of_nat (Ascii.nat_of_ascii c) in
  if (48 <=? n) && (n <=? 57) then Some (n - 48) else None.

Fixpoint decimal_go (acc : Z) (s : string) : option Z :=
  match s with
  | EmptyString => Some acc
  | String c s' => d ← digit c; decimal_go (10 * acc + d) s'
  end.

Definition decimal (s : string) : option Z :=
  match s with
  | EmptyString => None
  | _ => decimal_go 0 s
  end.

Definition octet (s : string) : option Z :=
  v ← decimal s; if v <=? 255 then Some v else None.

Definition parse_v4 (s : string) : option Z :=
  match split_on "."%char "" s with
  | [a; b; c; d] =>
      a ← octet a; b ← octet b; c ← octet c; d ← octet d;
      Some (((a * 256 + b) * 256 + c) * 256 + d)
  | _ => None
  end.

Definition parseCIDR (s : string) : option (Z * Z) :=
  match split_on "/"%char "" s with
  | [ip; bits] =>
      net ← parse_v4 ip; n ← decimal bits;
      if n <=? 32 then Some (net, n) else None
  | _ => None
  end.

Definition matchCIDR (addr : Z) (range : Z * Z) : bool :=
  Z.shiftr addr (32 - snd range) =? Z.shiftr (fst range) (32 - snd range).

Definition imports (nets : list string) : Imports :=
  {| V4 := Z; V6 := unit; CIDR := Z * Z;
     getHostname := hostname_of;
     isIP := λ h, bool_decide (is_Some (parse_v4 h));
     ipaddr_parse := λ h, IPv4 (default 0 (parse_v4 h));
     ipaddr_parseCIDR := parseCIDR;
     ipaddr_match := matchCIDR;
     NON_ROUTABLE_CIDR_NETS := nets |}.

Definition nets : list string :=
  ["10.0.0.0/8"; "127.0.0.0/8"; "172.16.0.0/12"; "192.168.0.0/16"].

Definition env : Imports := imports nets.

(** The instance [new NonRoutableService(storage)] yields for [nets]. *)
Definition fresh : @Service env :=
  @mkService env []
    [(167772160, 8); (2130706432, 8); (2886729728, 12); (3232235520, 16)]
    ∅ ∅ Throttle.initial [] 0.

(** A gateway failure (status 502) of the main frame of a tab. *)
Definition gateway_failure (tabId : Z) (url : string) : Details.t :=
  Details.Build url "main_frame" tabId (Some 502) None.

(** Pairwise distinct hostnames [h0.test], [h1.test], ... *)
Definition host (n : nat) : string :=
  String.append "h" (String.append (NilEmpty.string_of_uint (Nat.to_uint n)) ".test").

Definition hosts (n : nat) : list string := map host (seq 0 n).

(** All of [hs] added within the same millisecond. *)
Definition burst (hs : list string) : list (Z * string) := map (λ h, (0, h)) hs.


End Demo.

Example demo_hostname_of_url : Demo.hostname_of "http://blocked.test/" = Some "blocked.test".
Proof. reflexivity. Qed.

Example demo_parseCIDR : Demo.parseCIDR "127.0.0.0/8" = Some (2130706432, 8).
Proof. reflexivity. Qed.

(** * Properties *)

Section Properties.

Context `{Imports}.

(** Unfolding of the monad and of the field updates. *)
Ltac unfold_M :=
  unfold at_time, emit, Date_now, readMap, writeMap, throw, gets, modify,
    mbind, mret, M_bind, M_ret in *.

Ltac step_M := unfold_M; cbn [fst snd] in *.

(** Arithmetic over the two capacities. *)
Ltac lia_capacity :=
  unfold NON_ROUTABLE_MAX_LENGTH, CLEAR_CAPACITY in *;
  rewrite ?length_app in *; cbn [length] in *; lia.

#[local] Arguments getByHostname : simpl never.
#[local] Arguments clearStaleValues : simpl never.
#[local] Arguments addHostname : simpl never.
#[local] Arguments addNewNonRoutableDomain : simpl never.
#[local] Arguments updateStorage : simpl never.
#[local] Arguments timerExpired : simpl never.
#[local] Arguments trimList : simpl never.

(** ** Pending-event stores *)

Lemma set_webRequestErrorHostnames_id (s : Service) :
  set_webRequestErrorHostnames (webRequestErrorHostnames s) s = s.
Proof. by destruct s. Qed.

Lemma set_nonRoutableHostnames_id (s : Service) :
  set_nonRoutableHostnames (nonRoutableHostnames s) s = s.
Proof. by destruct s. Qed.

Lemma getByHostname_webRequestError (hostname : string) (s : Service) :
  getByHostname hostname WebRequestErrorHostnames s
  = Some (webRequestErrorHostnames s !! hostname,
          set_webRequestErrorHostnames
            (delete hostname (webRequestErrorHostnames s)) s).
Proof.
  unfold getByHostname. step_M.
  destruct (webRequestErrorHostnames s !! hostname) eqn:E; [done|].
  by rewrite delete_id, set_webRequestErrorHostnames_id.
Qed.

Lemma getByHostname_nonRoutable (hostname : string) (s : Service) :
  getByHostname hostname NonRoutableHostnames s
  = Some (nonRoutableHostnames s !! hostname,
          set_nonRoutableHostnames
            (delete hostname (nonRoutableHostnames s)) s).
Proof.
  unfold getByHostname. step_M.
  destruct (nonRoutableHostnames s !! hostname) eqn:E; [done|].
  by rewrite delete_id, set_nonRoutableHostnames_id.
Qed.

(** The sweep iterates over [Object.keys] of a [Map], which is empty: it
    returns without touching the store, whatever the store holds. *)
Lemma clearStaleValues_unchanged (storage : MapRef) (s : Service) :
  clearStaleValues storage s = Some ((), s).
Proof. by destruct storage. Qed.

(** ** The trimming loop *)

Lemma trimList_within (l : list string) :
  (length l ≤ NON_ROUTABLE_MAX_LENGTH)%nat → trimList l = l.
Proof.
  intros Hle. rewrite trimList_equation_1. simpl.
  destruct (decide (NON_ROUTABLE_MAX_LENGTH < length l)%nat); [lia|done].
Qed.

Lemma trimList_over (l : list string) :
  (NON_ROUTABLE_MAX_LENGTH < length l)%nat →
  trimList l = trimList (drop CLEAR_CAPACITY l).
Proof.
  intros Hlt. rewrite trimList_equation_1 at 1. simpl.
  destruct (decide (NON_ROUTABLE_MAX_LENGTH < length l)%nat); [done|lia].
Qed.

(** The loop removes whole chunks from the front, as few as bring the
    length down to the maximum. *)
Lemma trimList_chunks (l : list string) :
  ∃ k : nat,
    trimList l = drop (k * CLEAR_CAPACITY) l
    ∧ (length (trimList l) ≤ NON_ROUTABLE_MAX_LENGTH)%nat
    ∧ ∀ j : nat, (j < k)%nat →
        (NON_ROUTABLE_MAX_LENGTH < length (drop (j * CLEAR_CAPACITY) l))%nat.
Proof.
  remember (length l) as n eqn:Hn. revert l Hn.
  induction n as [n IH] using lt_wf_ind. intros l Hn.
  destruct (decide (NON_ROUTABLE_MAX_LENGTH < length l)%nat) as [Hlt|Hle].
  - destruct (IH (length (drop CLEAR_CAPACITY l))) with (l := drop CLEAR_CAPACITY l)
      as (k & Hk & Hlen & Hmin); [|done|].
    { rewrite length_drop. unfold NON_ROUTABLE_MAX_LENGTH, CLEAR_CAPACITY in *. lia. }
    exists (S k). rewrite trimList_over by done.
    split; [|split; [done|]].
    + by rewrite Hk, drop_drop.
    + intros [|j] Hj; [by rewrite drop_0|].
      specialize (Hmin j ltac:(lia)). rewrite drop_drop in Hmin.
      by replace (S j * CLEAR_CAPACITY)%nat with (CLEAR_CAPACITY + j * CLEAR_CAPACITY)%nat by lia.
  - exists 0%nat. rewrite trimList_within by lia.
    split; [by rewrite drop_0|]. split; [lia|]. intros j Hj. lia.
Qed.

Lemma trimList_suffix (l : list string) : trimList l `suffix_of` l.
Proof.
  destruct (trimList_chunks l) as (k & -> & _). apply suffix_drop.
Qed.

Lemma trimList_length (l : list string) :
  (length (trimList l) ≤ NON_ROUTABLE_MAX_LENGTH)%nat.
Proof. by destruct (trimList_chunks l) as (k & _ & ? & _). Qed.

(** When the loop removes anything, fewer than one chunk of room is left. *)
Lemma trimList_keeps (l : list string) :
  (NON_ROUTABLE_MAX_LENGTH < length l)%nat →
  (NON_ROUTABLE_MAX_LENGTH - CLEAR_CAPACITY < length (trimList l))%nat.
Proof.
  intros Hlt. destruct (trimList_chunks l) as (k & Hk & _ & Hmin).
  rewrite Hk. destruct k as [|k].
  - rewrite drop_0. unfold NON_ROUTABLE_MAX_LENGTH, CLEAR_CAPACITY in *. lia.
  - specialize (Hmin k ltac:(lia)). rewrite length_drop in *.
    unfold NON_ROUTABLE_MAX_LENGTH, CLEAR_CAPACITY in *. lia.
Qed.

Lemma trimList_NoDup (l : list string) : NoDup l → NoDup (trimList l).
Proof.
  intros Hnd. destruct (trimList_suffix l) as [k Hk].
  rewrite Hk in Hnd. by apply NoDup_app in Hnd as (_ & _ & ?).
Qed.

(** The last entry survives the loop. *)
Lemma trimList_last (l : list string) (h : string) :
  h ∈ trimList (l ++ [h]).
Proof.
  destruct (trimList_suffix (l ++ [h])) as [k Hk].
  destruct (decide (NON_ROUTABLE_MAX_LENGTH < length (l ++ [h]))%nat) as [Hlt|Hle].
  - apply trimList_keeps in Hlt.
    destruct (trimList (l ++ [h])) as [|x t] using rev_ind.
    + simpl in Hlt. unfold NON_ROUTABLE_MAX_LENGTH, CLEAR_CAPACITY in *. lia.
    + rewrite app_assoc in Hk. apply app_inj_tail in Hk as [_ ->].
      set_solver.
  - rewrite trimList_within by lia. set_solver.
Qed.

(** ** List store *)

Lemma updateStorage_func_flushes (s : Service) :
  updateStorage_func s = Some ((), flushed (updateStorage_throttle s) s).
Proof. by destruct s. Qed.

Lemma invokeFunc_flushes (time : Z) (s : Service) :
  ∃ t, invokeFunc time s = Some ((), flushed t s).
Proof. destruct s. by eexists. Qed.

(** A call of the throttled function either runs the wrapped function at
    once or leaves it to the timer; in both cases only the wrapper's own
    state changes besides. *)
Lemma updateStorage_cases (s : Service) :
  ∃ t, updateStorage s = Some ((), set_throttle t s)
       ∨ updateStorage s = Some ((), flushed t s).
Proof.
  destruct s as [l cidrs m1 m2 [args timer lastCall lastInvoke] es now].
  unfold updateStorage, leadingEdge, invokeFunc, updateStorage_func, flushed.
  step_M. cbn.
  destruct (shouldInvoke _ _), timer; cbn; eauto.
Qed.

Lemma timerExpired_cases (s : Service) :
  ∃ t, timerExpired s = Some ((), set_throttle t s)
       ∨ timerExpired s = Some ((), flushed t s).
Proof.
  destruct s as [l cidrs m1 m2 [args timer lastCall lastInvoke] es now].
  unfold timerExpired, trailingEdge, invokeFunc, updateStorage_func, flushed.
  step_M. cbn.
  destruct (shouldInvoke _ _), args; cbn; eauto.
Qed.

Lemma addHostname_present (hostname : string) (s : Service) :
  hostname ∈ nonRoutableList s →
  addHostname hostname s = Some ((), log_effect (CallAddHostname hostname) s).
Proof.
  intros Hin. unfold addHostname. step_M. cbn.
  by destruct (decide (hostname ∈ nonRoutableList s)).
Qed.

Lemma addHostname_absent (hostname : string) (s : Service) :
  hostname ∉ nonRoutableList s →
  let s1 := set_nonRoutableList (nonRoutableList s ++ [hostname])
              (log_effect (CallAddHostname hostname) s) in
  ∃ t, addHostname hostname s = Some ((), set_throttle t s1)
       ∨ addHostname hostname s = Some ((), flushed t s1).
Proof.
  intros Hin s1. unfold addHostname. step_M. cbn.
  destruct (decide (hostname ∈ nonRoutableList s)); [done|].
  apply (updateStorage_cases s1).
Qed.

(** What [addHostname] leaves behind, whichever way the throttle goes. *)
Lemma addHostname_frame (hostname : string) (s : Service) :
  ∃ s' new,
    addHostname hostname s = Some ((), s')
    ∧ effects s' = effects s ++ CallAddHostname hostname :: new
    ∧ Forall (λ e, is_storageSet e = true) new
    ∧ webRequestErrorHostnames s' = webRequestErrorHostnames s
    ∧ nonRoutableHostnames s' = nonRoutableHostnames s
    ∧ parsedCIDRList s' = parsedCIDRList s
    ∧ clock s' = clock s
    ∧ hostname ∈ nonRoutableList s'.
Proof.
  destruct (decide (hostname ∈ nonRoutableList s)) as [Hin|Hout].
  - eexists _, []. rewrite addHostname_present by done.
    split; [done|]. by cbn.
  - destruct (addHostname_absent hostname s Hout) as (t & [-> | ->]).
    + eexists _, []. split; [done|]. cbn. split_and!; try done. set_solver.
    + eexists _, [_]. split; [done|]. cbn. rewrite <- app_assoc. cbn.
      split_and!; try done; [by repeat constructor|apply trimList_last].
Qed.

Lemma addNewNonRoutableDomain_frame (hostname : string) (s : Service) :
  ∃ s' new,
    addNewNonRoutableDomain hostname s = Some ((), s')
    ∧ effects s' = effects s ++ CallAddHostname hostname :: new ++ [NotifyListeners hostname]
    ∧ Forall (λ e, is_storageSet e = true) new
    ∧ webRequestErrorHostnames s' = webRequestErrorHostnames s
    ∧ nonRoutableHostnames s' = nonRoutableHostnames s
    ∧ parsedCIDRList s' = parsedCIDRList s
    ∧ clock s' = clock s
    ∧ hostname ∈ nonRoutableList s'.
Proof.
  destruct (addHostname_frame hostname s)
    as (s' & new & Hrun & Heff & Hnew & ? & ? & ? & ? & ?).
  exists (log_effect (NotifyListeners hostname) s'), new.
  unfold addNewNonRoutableDomain. step_M. rewrite Hrun. cbn.
  rewrite Heff, <- app_assoc. by cbn.
Qed.

Lemma filter_storageSet (p : Effect → bool) (new : list Effect) :
  (∀ l, p (StorageSet l) = false) →
  Forall (λ e, is_storageSet e = true) new →
  List.filter p new = [].
Proof.
  intros Hp. induction 1 as [|e new He _ IH]; [done|].
  destruct e; try done. cbn. by rewrite Hp.
Qed.

(** ** Event correlator *)

Lemma commits_intro (h : string) (tabId : Z) (url : string)
    (s s' : Service) (new : list Effect) :
  effects s' = effects s ++ CallAddHostname h :: new
                 ++ [NotifyListeners h; TabsUpdate tabId url] →
  Forall (λ e, is_storageSet e = true) new →
  h ∈ nonRoutableList s' →
  commits h tabId url s s'.
Proof.
  intros Heff Hnew Hin. eexists. split; [exact Heff|].
  cbn. rewrite !List.filter_app. cbn.
  rewrite !filter_storageSet by done. done.
Qed.

(** The report handler when the transport failure is already there with a
    usable tab and URL. *)
Lemma handleNonRoutableDomains_commit (d h : string) (s : Service)
    (tabId : Z) (url : string) :
  Js.truthy_string d = true →
  getHostname d = Some h →
  Js.truthy_string h = true →
  tabId_and_url (webRequestErrorHostnames s !! h) = Some (tabId, url) →
  ∃ s',
    handleNonRoutableDomains d s = Some ((), s')
    ∧ commits h tabId url s s'
    ∧ webRequestErrorHostnames s' = delete h (webRequestErrorHostnames s)
    ∧ nonRoutableHostnames s' = nonRoutableHostnames s.
Proof.
  intros Hd Hh Hth Huse.
  unfold handleNonRoutableDomains. rewrite Hd, Hh. cbn. rewrite Hth. cbn.
  step_M. rewrite getByHostname_webRequestError. rewrite Huse.
  set (s0 := set_webRequestErrorHostnames _ s).
  destruct (addNewNonRoutableDomain_frame h s0)
    as (s' & new & -> & Heff & Hnew & Hw & Hn & _ & _ & Hin).
  rewrite clearStaleValues_unchanged.
  eexists. split; [done|]. cbn. split_and!; try done.
  eapply commits_intro with (new := new); [|done..].
  cbn. rewrite Heff. subst s0. cbn.
  rewrite <- app_assoc. cbn. by rewrite <- app_assoc.
Qed.

(** The report handler otherwise: the entry of the transport-failure store,
    if any, is gone and the report is recorded. *)
Lemma handleNonRoutableDomains_record (d h : string) (s : Service) :
  Js.truthy_string d = true →
  getHostname d = Some h →
  Js.truthy_string h = true →
  tabId_and_url (webRequestErrorHostnames s !! h) = None →
  handleNonRoutableDomains d s
  = Some ((), set_nonRoutableHostnames
                (<[h := HostnameData.Build (clock s) None None]> (nonRoutableHostnames s))
                (set_webRequestErrorHostnames (delete h (webRequestErrorHostnames s)) s)).
Proof.
  intros Hd Hh Hth Huse.
  unfold handleNonRoutableDomains. rewrite Hd, Hh. cbn. rewrite Hth. cbn.
  step_M. rewrite getByHostname_webRequestError. rewrite Huse. cbn.
  by rewrite clearStaleValues_unchanged.
Qed.

Lemma handleWebRequestErrors_commit (details : Details.t) (h : string)
    (s : Service) (v : HostnameData.t) :
  triggers details = true →
  getHostname (Details.url details) = Some h →
  Js.truthy_string h = true →
  nonRoutableHostnames s !! h = Some v →
  ∃ s',
    handleWebRequestErrors details s = Some ((), s')
    ∧ commits h (Details.tabId details) (Details.url details) s s'
    ∧ nonRoutableHostnames s' = delete h (nonRoutableHostnames s)
    ∧ webRequestErrorHostnames s' = webRequestErrorHostnames s.
Proof.
  intros Htr Hh Hth Hv.
  unfold handleWebRequestErrors. rewrite Htr, Hh. cbn. rewrite Hth. cbn.
  step_M. rewrite getByHostname_nonRoutable. rewrite Hv.
  set (s0 := set_nonRoutableHostnames _ s).
  destruct (addNewNonRoutableDomain_frame h s0)
    as (s' & new & -> & Heff & Hnew & Hw & Hn & _ & _ & Hin).
  rewrite clearStaleValues_unchanged.
  eexists. split; [done|]. cbn. split_and!; try done.
  eapply commits_intro with (new := new); [|done..].
  cbn. rewrite Heff. subst s0. cbn.
  rewrite <- app_assoc. cbn. by rewrite <- app_assoc.
Qed.

Lemma handleWebRequestErrors_record (details : Details.t) (h : string)
    (s : Service) :
  triggers details = true →
  getHostname (Details.url details) = Some h →
  Js.truthy_string h = true →
  nonRoutableHostnames s !! h = None →
  handleWebRequestErrors details s
  = Some ((), set_webRequestErrorHostnames
                (<[h := HostnameData.Build (clock s)
                          (Some (Details.tabId details)) (Some (Details.url details))]>
                   (webRequestErrorHostnames s)) s).
Proof.
  intros Htr Hh Hth Hv.
  unfold handleWebRequestErrors. rewrite Htr, Hh. cbn. rewrite Hth. cbn.
  step_M. rewrite getByHostname_nonRoutable. rewrite Hv. cbn.
  rewrite delete_id by done. rewrite set_nonRoutableHostnames_id.
  by rewrite clearStaleValues_unchanged.
Qed.

Lemma dispatch_report (t : Z) (d : string) (s : Service) :
  dispatch t (NonRoutableDomainFound d) s = handleNonRoutableDomains d (set_clock t s).
Proof. done. Qed.

Lemma dispatch_webRequest (t : Z) (details : Details.t) (s : Service) :
  dispatch t (WebRequest details) s = handleWebRequestErrors details (set_clock t s).
Proof. done. Qed.

Lemma truthy_number_nonzero (n : Z) : n ≠ 0 → Js.truthy_number n = true.
Proof. unfold Js.truthy_number. intros. apply negb_true_iff. lia. Qed.

(** Where order independence holds in the code: for a hostname [h] with
    nothing pending, a transport failure and a report for [h] that pass
    their guards lead in either order to exactly one [addHostname h], one
    notification and one [tabs.update], made by the handler that runs
    second, and leave nothing pending for [h], when the failure's tab
    identifier is not [0] and its URL is not empty. *)
Theorem order_independence_truthy_tab (h d : string) (details : Details.t)
    (t1 t2 : Z) (s : Service) :
  paired h d details s →
  within_ttl t1 t2 →
  Details.tabId details ≠ 0 →
  Js.truthy_string (Details.url details) = true →
  order_independent h d details t1 t2 s.
Proof.
  intros (Hd & Hhd & Hhu & Hth & Htr & Hw & Hn) _ Htab Hurl.
  split.
  - (* transport failure, then report *)
    rewrite dispatch_webRequest.
    rewrite (handleWebRequestErrors_record details h) by done.
    match goal with |- context [Some ((), ?x) = Some _] => set (s1 := x) end.
    destruct (handleNonRoutableDomains_commit d h (set_clock t2 s1)
                (Details.tabId details) (Details.url details))
      as (s2 & Hrun & Hc & Hw2 & Hn2); [done..| |].
    { cbn. rewrite lookup_insert_eq. cbn.
      by rewrite truthy_number_nonzero, Hurl. }
    exists s1, s2. rewrite dispatch_report.
    split_and!; try done.
    split; [rewrite Hw2; apply lookup_delete_eq | by rewrite Hn2].
  - (* report, then transport failure *)
    rewrite dispatch_report.
    rewrite (handleNonRoutableDomains_record d h) by (try done; cbn; by rewrite Hw).
    match goal with |- context [Some ((), ?x) = Some _] => set (s1 := x) end.
    destruct (handleWebRequestErrors_commit details h (set_clock t2 s1)
                (HostnameData.Build t1 None None))
      as (s2 & Hrun & Hc & Hn2 & Hw2); [done..| |].
    { cbn. apply lookup_insert_eq. }
    exists s1, s2. rewrite dispatch_webRequest.
    split_and!; try done.
    split; [rewrite Hw2; apply lookup_delete_eq | rewrite Hn2; apply lookup_delete_eq].
Qed.

Lemma extraction_fails_falsy (u : string) :
  extraction_fails u ↔ Js.truthy_opt Js.truthy_string (getHostname u) = false.
Proof.
  unfold extraction_fails.
  destruct (getHostname u) as [[|c h]|]; cbn; intuition congruence.
Qed.

Lemma handleNonRoutableDomains_guard (d : string) (s : Service) :
  d = "" ∨ extraction_fails d →
  handleNonRoutableDomains d s = Some ((), s).
Proof.
  intros [-> | Hf]; [done|].
  apply extraction_fails_falsy in Hf.
  unfold handleNonRoutableDomains. rewrite Hf.
  by destruct (Js.truthy_string d).
Qed.

Lemma handleWebRequestErrors_guard (details : Details.t) (s : Service) :
  Details.type details ≠ MAIN_FRAME
  ∨ (Details.error details ≠ Some ERROR
     ∧ Details.statusCode details ≠ Some STATUS_CODE)
  ∨ extraction_fails (Details.url details) →
  handleWebRequestErrors details s = Some ((), s).
Proof.
  unfold handleWebRequestErrors, triggers.
  intros [Hty | [[He Hs] | Hf]].
  - rewrite (bool_decide_eq_false_2 _ Hty), andb_false_r. done.
  - by rewrite (bool_decide_eq_false_2 _ He), (bool_decide_eq_false_2 _ Hs).
  - apply extraction_fails_falsy in Hf. cbn. rewrite Hf.
    by destruct (_ && _).
Qed.

Lemma tabId_and_url_cases (v : option HostnameData.t) :
  tabId_and_url v = None ∨ ∃ tabId url, tabId_and_url v = Some (tabId, url).
Proof. destruct (tabId_and_url v) as [[tabId url]|]; eauto. Qed.

Lemma handleNonRoutableDomains_total (d : string) (s : Service) :
  is_Some (handleNonRoutableDomains d s).
Proof.
  destruct (decide (d = "")) as [->|Hd]; [by eexists|].
  assert (Js.truthy_string d = true) as Htd by by destruct d.
  destruct (getHostname d) as [[|c h]|] eqn:Hh.
  - rewrite handleNonRoutableDomains_guard; [done|]. right. by right.
  - destruct (tabId_and_url_cases (webRequestErrorHostnames s !! String c h))
      as [Hnone | (tabId & url & Hsome)].
    + by erewrite handleNonRoutableDomains_record.
    + edestruct handleNonRoutableDomains_commit as (s' & -> & _); done.
  - rewrite handleNonRoutableDomains_guard; [done|]. right. by left.
Qed.

Lemma handleWebRequestErrors_total (details : Details.t) (s : Service) :
  is_Some (handleWebRequestErrors details s).
Proof.
  destruct (triggers details) eqn:Htr.
  - destruct (getHostname (Details.url details)) as [[|c h]|] eqn:Hh.
    + rewrite handleWebRequestErrors_guard; [done|]. right. right. by right.
    + destruct (nonRoutableHostnames s !! String c h) as [v|] eqn:Hv.
      * edestruct handleWebRequestErrors_commit as (s' & -> & _); done.
      * by erewrite handleWebRequestErrors_record.
    + rewrite handleWebRequestErrors_guard; [done|]. right. right. by left.
  - unfold handleWebRequestErrors. by rewrite Htr.
Qed.

(** C8: each handler returns at once, with the instance exactly as it was
    (stores, list, throttle and effect log), when its guard fails: the
    report handler on an empty input or when no hostname can be extracted;
    the transport-failure handler when the request is not a [main_frame]
    one, or carries neither the tunnel error nor status 502, or no hostname
    can be extracted from its URL.  Neither handler ever throws. *)
Theorem handlers_ignore_what_fails_their_guards (s : Service) :
  (∀ d, d = "" ∨ extraction_fails d →
        handleNonRoutableDomains d s = Some ((), s))
  ∧ (∀ details,
        Details.type details ≠ MAIN_FRAME
        ∨ (Details.error details ≠ Some ERROR
           ∧ Details.statusCode details ≠ Some STATUS_CODE)
        ∨ extraction_fails (Details.url details) →
        handleWebRequestErrors details s = Some ((), s))
  ∧ (∀ d, is_Some (handleNonRoutableDomains d s))
  ∧ (∀ details, is_Some (handleWebRequestErrors details s)).
Proof.
  split_and!.
  - intros d. apply handleNonRoutableDomains_guard.
  - intros details. apply handleWebRequestErrors_guard.
  - intros d. apply handleNonRoutableDomains_total.
  - intros details. apply handleWebRequestErrors_total.
Qed.

(** C10: when the transport-failure store holds, for the hostname of a
    report, an entry whose tab identifier or URL is falsy, the report
    handler removes that entry, makes no call of [addHostname], sends no
    notification and no [tabs.update], and records the report under the
    current time. *)
Theorem falsy_failure_entry_is_consumed_without_commit
    (d h : string) (v : HostnameData.t) (s : Service) :
  Js.truthy_string d = true →
  getHostname d = Some h →
  Js.truthy_string h = true →
  webRequestErrorHostnames s !! h = Some v →
  Js.truthy_opt Js.truthy_number (HostnameData.tabId v) = false
  ∨ Js.truthy_opt Js.truthy_string (HostnameData.url v) = false →
  ∃ s',
    handleNonRoutableDomains d s = Some ((), s')
    ∧ webRequestErrorHostnames s' = delete h (webRequestErrorHostnames s)
    ∧ nonRoutableHostnames s'
      = <[h := HostnameData.Build (clock s) None None]> (nonRoutableHostnames s)
    ∧ effects s' = effects s
    ∧ nonRoutableList s' = nonRoutableList s.
Proof.
  intros Hd Hh Hth Hv Hfalsy.
  eexists. split.
  - apply (handleNonRoutableDomains_record d h); [done..|].
    rewrite Hv. destruct v as [t [tabId|] [url|]]; cbn in *; try done.
    destruct Hfalsy as [-> | ->]; [done|]. by rewrite andb_false_r.
  - done.
Qed.

(** ** Classifier *)

Lemma existsb_Exists_match (addr : V4) (cidrs : list CIDR) :
  existsb (λ parsedCIDR, ipaddr_match addr parsedCIDR) cidrs = true
  ↔ Exists (λ range, ipaddr_match addr range = true) cidrs.
Proof.
  rewrite existsb_exists, Exists_exists.
  split; intros (x & Hx & ?); exists x; split; try done;
    by apply list_elem_of_In.
Qed.

Lemma isUrlRoutable_eq (url : string) (s : Service) :
  isUrlRoutable url s = Some (routable_by_spec url s, s).
Proof.
  unfold isUrlRoutable, routable_by_spec, extractHostname.
  destruct (getHostname url) as [[|c h]|]; cbn; [done| |done].
  step_M.
  destruct (decide (String c h = LOCALHOST ∨ String c h ∈ nonRoutableList s))
    as [Hor | Hnor].
  - assert (bool_decide (String c h = LOCALHOST)
            || bool_decide (String c h ∈ nonRoutableList s) = true) as ->; [|done].
    apply orb_true_iff. rewrite !bool_decide_eq_true. done.
  - assert (bool_decide (String c h = LOCALHOST)
            || bool_decide (String c h ∈ nonRoutableList s) = false) as ->.
    { apply orb_false_iff. rewrite !bool_decide_eq_false. tauto. }
    destruct (isIP (String c h)); cbn; [|done].
    destruct (ipaddr_parse (String c h)) as [addr|addr]; [|done].
    destruct (decide (Exists _ _)) as [Hex | Hnex].
    + apply existsb_Exists_match in Hex. by rewrite Hex.
    + destruct (existsb _ _) eqn:Hb; [|done].
      by apply existsb_Exists_match in Hb.
Qed.

(** C3: for every URL and every state of the instance, [isUrlRoutable]
    answers what the decision sequence of the specification answers: true
    when no hostname can be extracted; else false for [localhost] or a
    listed hostname; else true for what is not an IP literal; else true for
    an IPv6 address; else false exactly when some configured range matches
    the IPv4 address. *)
Theorem isUrlRoutable_follows_decision_sequence (url : string) (s : Service) :
  fst <$> isUrlRoutable url s = Some (routable_by_spec url s).
Proof. by rewrite isUrlRoutable_eq. Qed.

(** C9: [isUrlRoutable] returns with the instance exactly as it found it:
    the list, both pending-event stores, the throttle and the effect log
    (so no flush, notification or retry) are unchanged, and it does not
    throw. *)
Theorem isUrlRoutable_has_no_side_effect (url : string) (s : Service) :
  snd <$> isUrlRoutable url s = Some s.
Proof. by rewrite isUrlRoutable_eq. Qed.

(** C7: construction throws as soon as one configured range fails to
    parse, and an instance that was constructed holds, in order, the parsed
    form of every configured range. *)
Theorem constructor_parses_every_range_or_throws :
  (∀ net, net ∈ NON_ROUTABLE_CIDR_NETS → ipaddr_parseCIDR net = None →
          constructor = None)
  ∧ (∀ svc, constructor = Some svc →
            Forall2 (λ net range, ipaddr_parseCIDR net = Some range)
              NON_ROUTABLE_CIDR_NETS (parsedCIDRList svc)).
Proof.
  unfold constructor. split.
  - intros net Hin Hnone.
    assert (mapM ipaddr_parseCIDR NON_ROUTABLE_CIDR_NETS = None) as ->; [|done].
    apply mapM_None. apply Exists_exists. eauto.
  - intros svc Hsvc.
    destruct (mapM ipaddr_parseCIDR NON_ROUTABLE_CIDR_NETS) as [parsed|] eqn:Hm;
      [|done].
    cbn in Hsvc. injection Hsvc as <-. cbn. by apply mapM_Some.
Qed.

(** ** The list invariant *)

(** One call of [addHostname] seen from the list. *)
Lemma addHostname_list (h : string) (s : Service) :
  NoDup (nonRoutableList s) →
  ∃ s' new,
    addHostname h s = Some ((), s')
    ∧ NoDup (nonRoutableList s')
    ∧ nonRoutableList s' `sublist_of` nonRoutableList s ++ [h]
    ∧ effects s' = effects s ++ CallAddHostname h :: new
    ∧ (new = []
       ∨ new = [StorageSet (nonRoutableList s')]
         ∧ (length (nonRoutableList s') ≤ NON_ROUTABLE_MAX_LENGTH)%nat).
Proof.
  intros Hnd.
  destruct (decide (h ∈ nonRoutableList s)) as [Hin|Hout].
  - eexists _, []. rewrite addHostname_present by done.
    split; [done|]. cbn. split_and!; try done; [|by left].
    by apply sublist_inserts_r.
  - assert (NoDup (nonRoutableList s ++ [h])) as Hnd'.
    { apply NoDup_app. split_and!; [done| |apply NoDup_singleton].
      intros x Hx ->%list_elem_of_singleton. done. }
    destruct (addHostname_absent h s Hout) as (t & [-> | ->]).
    + eexists _, []. split; [done|]. cbn. split_and!; try done. by left.
    + eexists _, [_]. split; [done|]. cbn. rewrite <- app_assoc. cbn.
      split_and!; try done.
      * by apply trimList_NoDup.
      * destruct (trimList_chunks (nonRoutableList s ++ [h])) as (k & -> & _).
        apply sublist_drop.
      * right. split; [done|]. apply trimList_length.
Qed.

(** C4, as amended: every mutation of the list keeps it free of duplicates
    and keeps the surviving entries in insertion order; the length is at
    most the maximum after every flush (the function wrapped by the
    throttle), whereas a call of [addHostname] whose flush the throttle
    defers only appends the hostname (or leaves the list as it is when the
    hostname is there already), so that between flushes the list may be
    longer than the maximum.  A call that flushes leaves the trimmed list,
    with the hostname at its end, and has handed it to the storage. *)
Theorem list_invariant_holds_at_flushes (s : Service) :
  NoDup (nonRoutableList s) →
  (∀ h, ∃ s' new,
      addHostname h s = Some ((), s')
      ∧ NoDup (nonRoutableList s')
      ∧ nonRoutableList s' `sublist_of` nonRoutableList s ++ [h]
      ∧ effects s' = effects s ++ CallAddHostname h :: new
      ∧ ((new = []
          ∧ nonRoutableList s'
            = if decide (h ∈ nonRoutableList s)
              then nonRoutableList s
              else nonRoutableList s ++ [h])
         ∨ (new = [StorageSet (nonRoutableList s')]
            ∧ (h ∉ nonRoutableList s)
            ∧ nonRoutableList s' = trimList (nonRoutableList s ++ [h])
            ∧ nonRoutableList s' `suffix_of` nonRoutableList s ++ [h]
            ∧ h ∈ nonRoutableList s'
            ∧ (length (nonRoutableList s') ≤ NON_ROUTABLE_MAX_LENGTH)%nat)))
  ∧ (∃ s',
      updateStorage_func s = Some ((), s')
      ∧ nonRoutableList s' = trimList (nonRoutableList s)
      ∧ effects s' = effects s ++ [StorageSet (nonRoutableList s')]
      ∧ nonRoutableList s' `suffix_of` nonRoutableList s
      ∧ list_invariant s').
Proof.
  intros Hnd. split.
  - intros h.
    destruct (decide (h ∈ nonRoutableList s)) as [Hin|Hout].
    + eexists _, []. rewrite addHostname_present by done.
      split; [done|]. cbn. split_and!; try done.
      * by apply sublist_inserts_r.
      * left. split; [done|].
        by destruct (decide (h ∈ nonRoutableList s)).
    + assert (NoDup (nonRoutableList s ++ [h])) as Hnd'.
      { apply NoDup_app. split_and!; [done| |apply NoDup_singleton].
        intros x Hx ->%list_elem_of_singleton. done. }
      destruct (addHostname_absent h s Hout) as (t & [-> | ->]).
      * eexists _, []. split; [done|]. cbn. split_and!; try done.
        left. split; [done|].
        by destruct (decide (h ∈ nonRoutableList s)).
      * eexists _, [_]. split; [done|]. cbn. rewrite <- app_assoc. cbn.
        split_and!; try done.
        -- by apply trimList_NoDup.
        -- destruct (trimList_chunks (nonRoutableList s ++ [h])) as (k & -> & _).
           apply sublist_drop.
        -- right. split_and!; try done.
           ++ apply trimList_suffix.
           ++ apply trimList_last.
           ++ apply trimList_length.
  - rewrite updateStorage_func_flushes. eexists. split; [done|]. cbn.
    split; [done|]. split; [done|].
    split; [apply trimList_suffix|].
    split; cbn; [by apply trimList_NoDup | apply trimList_length].
Qed.

(** ** Eviction *)

(** Calls of [addHostname] with hostnames that are new and pairwise
    distinct: the list stays a suffix of everything added so far, and loses
    entries only to the trimming loop. *)
Lemma addAll_suffix (calls : list (Z * string)) :
  ∀ (s : Service) (base : list string),
    nonRoutableList s `suffix_of` base →
    NoDup (base ++ calls.*2) →
    (Nat.min (length base) (NON_ROUTABLE_MAX_LENGTH - CLEAR_CAPACITY + 1)
       ≤ length (nonRoutableList s))%nat →
    ∃ s1,
      addAll calls s = Some ((), s1)
      ∧ nonRoutableList s1 `suffix_of` base ++ calls.*2
      ∧ (Nat.min (length (base ++ calls.*2))
           (NON_ROUTABLE_MAX_LENGTH - CLEAR_CAPACITY + 1)
           ≤ length (nonRoutableList s1))%nat.
Proof.
  induction calls as [|[t h] calls IH]; intros s base Hsuf Hnd Hmin.
  - exists s. cbn. rewrite app_nil_r. done.
  - cbn [fmap list_fmap snd] in *.
    assert (h ∉ nonRoutableList (set_clock t s)) as Hout.
    { cbn. intros Hin. apply NoDup_app in Hnd as (_ & Hnd & _).
      destruct Hsuf as [k ->]. apply (Hnd h); set_solver. }
    replace (base ++ h :: calls.*2) with ((base ++ [h]) ++ calls.*2) in *
      by by rewrite <- app_assoc.
    assert (nonRoutableList s ++ [h] `suffix_of` base ++ [h]) as Hsuf'
      by by apply suffix_app.
    pose proof (addHostname_absent h (set_clock t s) Hout) as (t' & Hrun).
    cbn in Hrun.
    unfold addAll. cbn [forEach]. step_M.
    destruct Hrun as [-> | ->].
    + apply IH; cbn; [done..|].
      lia_capacity.
    + apply IH; cbn; [by etrans; [apply trimList_suffix|] |done|].
      destruct (decide (NON_ROUTABLE_MAX_LENGTH < length (nonRoutableList s ++ [h]))%nat)
        as [Hlt|Hle].
      * apply trimList_keeps in Hlt. lia_capacity.
      * rewrite trimList_within by lia. lia_capacity.
Qed.

(** C5: a flush removes the oldest entries, one chunk of [CLEAR_CAPACITY]
    at a time and only while the list is longer than the maximum, and then
    hands the list to the storage.  Hence, after any number of calls of
    [addHostname] with distinct new hostnames and a flush, the list is at
    most [NON_ROUTABLE_MAX_LENGTH] long and is made of the most recently
    added hostnames, in the order they were added; fewer than one chunk of
    room is left when anything was evicted. *)
Theorem flush_evicts_oldest_chunks (s : Service) :
  (∃ (k : nat) (s' : Service),
      updateStorage_func s = Some ((), s')
      ∧ nonRoutableList s' = drop (k * CLEAR_CAPACITY) (nonRoutableList s)
      ∧ (∀ j : nat, (j < k)%nat →
           (NON_ROUTABLE_MAX_LENGTH
              < length (drop (j * CLEAR_CAPACITY) (nonRoutableList s)))%nat)
      ∧ (length (nonRoutableList s') ≤ NON_ROUTABLE_MAX_LENGTH)%nat
      ∧ effects s' = effects s ++ [StorageSet (nonRoutableList s')])
  ∧ (∀ calls : list (Z * string),
      NoDup (nonRoutableList s ++ calls.*2) →
      ∃ s1 s2,
        addAll calls s = Some ((), s1)
        ∧ updateStorage_func s1 = Some ((), s2)
        ∧ nonRoutableList s2 `suffix_of` nonRoutableList s ++ calls.*2
        ∧ (length (nonRoutableList s2) ≤ NON_ROUTABLE_MAX_LENGTH)%nat
        ∧ (Nat.min (length (nonRoutableList s ++ calls.*2))
             (NON_ROUTABLE_MAX_LENGTH - CLEAR_CAPACITY + 1)
             ≤ length (nonRoutableList s2))%nat).
Proof.
  split.
  - destruct (trimList_chunks (nonRoutableList s)) as (k & Hk & Hlen & Hmin).
    exists k. rewrite updateStorage_func_flushes. eexists. split; [done|].
    by cbn.
  - intros calls Hnd.
    destruct (addAll_suffix calls s (nonRoutableList s)) as (s1 & Hrun & Hsuf & Hmin);
      [done|done|lia|].
    exists s1. rewrite updateStorage_func_flushes. eexists.
    split; [done|]. split; [done|]. cbn.
    split; [by etrans; [apply trimList_suffix|]|].
    split; [apply trimList_length|].
    destruct (decide (NON_ROUTABLE_MAX_LENGTH < length (nonRoutableList s1))%nat)
      as [Hlt|Hle].
    + apply trimList_keeps in Hlt. lia_capacity.
    + by rewrite trimList_within by lia.
Qed.

(** ** Idempotence *)

Lemma NoDup_count_occ_1 (l : list string) (h : string) :
  NoDup l → h ∈ l → count_occ string_dec l h = 1%nat.
Proof.
  intros Hnd Hin.
  apply NoDup_ListNoDup in Hnd.
  apply (proj1 (NoDup_count_occ' string_dec l) Hnd h). by apply list_elem_of_In.
Qed.

(** C6, as amended: two calls of [addHostname] with the same hostname
    leave the list holding it exactly once, the second call leaving the
    list as it is, and neither call sends a notification.  The notification
    is sent by [addNewNonRoutableDomain], the commit of a correlated pair:
    exactly one per commit, carrying the hostname, also when the hostname
    is on the list already, in which case the list stays as it is -- so
    there is one notification per commit, not per new entry. *)
Theorem addHostname_idempotent (h : string) (s : Service) :
  NoDup (nonRoutableList s) →
  (∃ s1 s2,
      addHostname h s = Some ((), s1)
      ∧ addHostname h s1 = Some ((), s2)
      ∧ nonRoutableList s2 = nonRoutableList s1
      ∧ count_occ string_dec (nonRoutableList s2) h = 1%nat
      ∧ List.filter is_notify (effects s2) = List.filter is_notify (effects s))
  ∧ (∃ s' new,
      addNewNonRoutableDomain h s = Some ((), s')
      ∧ effects s' = effects s ++ new
      ∧ List.filter is_notify new = [NotifyListeners h]
      ∧ count_occ string_dec (nonRoutableList s') h = 1%nat
      ∧ (h ∈ nonRoutableList s → nonRoutableList s' = nonRoutableList s)).
Proof.
  intros Hnd.
  destruct (addHostname_list h s Hnd) as (s1 & new1 & Hrun1 & Hnd1 & _ & Heff1 & Hnew1).
  destruct (addHostname_frame h s) as (s1' & new1' & Hrun1' & _ & _ & _ & _ & _ & _ & Hin1).
  rewrite Hrun1 in Hrun1'. injection Hrun1' as <-.
  split.
  - exists s1. rewrite (addHostname_present h s1) by done.
    eexists. split; [done|]. split; [done|]. cbn.
    split; [done|]. split; [by apply NoDup_count_occ_1|].
    rewrite Heff1, !List.filter_app. cbn.
    destruct Hnew1 as [-> | [-> _]]; cbn; by rewrite !app_nil_r.
  - unfold addNewNonRoutableDomain. step_M. rewrite Hrun1.
    eexists _, (CallAddHostname h :: new1 ++ [NotifyListeners h]).
    split; [done|]. cbn.
    split; [by rewrite Heff1, <- app_assoc|].
    split; [|split; [by apply NoDup_count_occ_1|]].
    + rewrite List.filter_app. by destruct Hnew1 as [-> | [-> _]].
    + intros Hin.
      rewrite (addHostname_present h s Hin) in Hrun1. by injection Hrun1 as <-.
Qed.

(** * Further properties *)

(** ** Outcomes of the handlers *)

Lemma extractHostname_Some (u h : string) :
  extractHostname u = Some h ↔ getHostname u = Some h ∧ Js.truthy_string h = true.
Proof.
  unfold extractHostname.
  destruct (getHostname u) as [[|c k]|]; cbn.
  - split; [done|]. by intros [[= <-] ?].
  - split; [by intros [= <-]|]. by intros [[= <-] _].
  - split; [done|]. by intros [? _].
Qed.

Lemma extractHostname_None (u : string) :
  extractHostname u = None ↔ extraction_fails u.
Proof.
  unfold extractHostname, extraction_fails.
  destruct (getHostname u) as [[|c k]|]; cbn; intuition congruence.
Qed.

(** The report handler, past its guards, either records the report or
    calls [addHostname] and then notifies and retries. *)
Lemma handleNonRoutableDomains_outcome (d h : string) (s : Service) :
  event_hostname (NonRoutableDomainFound d) = Some h →
  let s0 := set_webRequestErrorHostnames (delete h (webRequestErrorHostnames s)) s in
  (tabId_and_url (webRequestErrorHostnames s !! h) = None
   ∧ handleNonRoutableDomains d s
     = Some ((), set_nonRoutableHostnames
                   (<[h := HostnameData.Build (clock s) None None]> (nonRoutableHostnames s))
                   s0))
  ∨ (∃ tabId url s1,
       tabId_and_url (webRequestErrorHostnames s !! h) = Some (tabId, url)
       ∧ addHostname h s0 = Some ((), s1)
       ∧ handleNonRoutableDomains d s
         = Some ((), log_effect (TabsUpdate tabId url)
                       (log_effect (NotifyListeners h) s1))).
Proof.
  cbn. destruct (Js.truthy_string d) eqn:Hd; [|done].
  intros (Hh & Hth)%extractHostname_Some.
  destruct (tabId_and_url (webRequestErrorHostnames s !! h)) as [[tabId url]|] eqn:Huse.
  - right. exists tabId, url.
    destruct (addHostname_frame h
                (set_webRequestErrorHostnames (delete h (webRequestErrorHostnames s)) s))
      as (s1 & new & Hrun & _).
    exists s1. split; [done|]. split; [done|].
    unfold handleNonRoutableDomains. rewrite Hd, Hh. cbn. rewrite Hth. cbn.
    step_M. rewrite getByHostname_webRequestError, Huse.
    unfold addNewNonRoutableDomain. step_M. rewrite Hrun.
    by rewrite clearStaleValues_unchanged.
  - left. split; [done|]. by apply handleNonRoutableDomains_record.
Qed.

(** The transport-failure handler, past its guards, either records the
    failure or calls [addHostname] and then notifies and retries. *)
Lemma handleWebRequestErrors_outcome (details : Details.t) (h : string) (s : Service) :
  event_hostname (WebRequest details) = Some h →
  let s0 := set_nonRoutableHostnames (delete h (nonRoutableHostnames s)) s in
  (nonRoutableHostnames s !! h = None
   ∧ handleWebRequestErrors details s
     = Some ((), set_webRequestErrorHostnames
                   (<[h := HostnameData.Build (clock s)
                             (Some (Details.tabId details)) (Some (Details.url details))]>
                      (webRequestErrorHostnames s)) s))
  ∨ (∃ s1,
       is_Some (nonRoutableHostnames s !! h)
       ∧ addHostname h s0 = Some ((), s1)
       ∧ handleWebRequestErrors details s
         = Some ((), log_effect (TabsUpdate (Details.tabId details) (Details.url details))
                       (log_effect (NotifyListeners h) s1))).
Proof.
  cbn. destruct (triggers details) eqn:Htr; [|done].
  intros (Hh & Hth)%extractHostname_Some.
  destruct (nonRoutableHostnames s !! h) as [v|] eqn:Hv.
  - right.
    destruct (addHostname_frame h
                (set_nonRoutableHostnames (delete h (nonRoutableHostnames s)) s))
      as (s1 & new & Hrun & _).
    exists s1. split; [done|]. split; [done|].
    unfold handleWebRequestErrors. rewrite Htr, Hh. cbn. rewrite Hth. cbn.
    step_M. rewrite getByHostname_nonRoutable, Hv.
    unfold addNewNonRoutableDomain. step_M. rewrite Hrun.
    by rewrite clearStaleValues_unchanged.
  - left. split; [done|]. by apply handleWebRequestErrors_record.
Qed.

(** An event that fails the guards of its handler leaves the instance as
    it is. *)
Lemma handler_guarded (ev : Event) (s : Service) :
  event_hostname ev = None →
  match ev with
  | NonRoutableDomainFound d => handleNonRoutableDomains d s = Some ((), s)
  | WebRequest details => handleWebRequestErrors details s = Some ((), s)
  | TimerFired => True
  end.
Proof.
  destruct ev as [d|details|]; cbn; [| |done].
  - destruct (Js.truthy_string d) eqn:Hd.
    + intros ?%extractHostname_None. apply handleNonRoutableDomains_guard. by right.
    + intros _. apply handleNonRoutableDomains_guard. left. by destruct d.
  - destruct (triggers details) eqn:Htr.
    + intros ?%extractHostname_None. apply handleWebRequestErrors_guard.
      right. by right.
    + intros _. unfold handleWebRequestErrors. by rewrite Htr.
Qed.

(** ** Pending-event stores under the event loop *)

(** X1: a lookup consumes: [getByHostname] returns what the store holds for
    the hostname and removes it, so that an immediate second lookup finds
    nothing and changes nothing; the other store, the list and the effect
    log are not touched. *)
Theorem getByHostname_consumes (r : MapRef) (h : string) (s : Service) :
  ∃ s1,
    getByHostname h r s = Some (storeOf r s !! h, s1)
    ∧ getByHostname h r s1 = Some (None, s1)
    ∧ storeOf r s1 = delete h (storeOf r s)
    ∧ storeOf (otherStore r) s1 = storeOf (otherStore r) s
    ∧ nonRoutableList s1 = nonRoutableList s
    ∧ effects s1 = effects s.
Proof.
  destruct r; cbn.
  - rewrite getByHostname_webRequestError. eexists. split; [done|].
    rewrite getByHostname_webRequestError. cbn.
    rewrite lookup_delete_eq, delete_delete_eq. by destruct s.
  - rewrite getByHostname_nonRoutable. eexists. split; [done|].
    rewrite getByHostname_nonRoutable. cbn.
    rewrite lookup_delete_eq, delete_delete_eq. by destruct s.
Qed.

Lemma timer_step_cases (t : Z) (s : Service) :
  ∃ s', dispatch t TimerFired s = Some ((), s')
        ∧ (s' = set_clock t s
           ∨ (∃ th, s' = set_throttle th (set_clock t s))
           ∨ (∃ th, s' = flushed th (set_clock t s))).
Proof.
  unfold dispatch. step_M. cbn.
  destruct (Throttle.timerId (updateStorage_throttle s)) as [due|]; [|by eauto].
  destruct (due <=? t); [|by eauto].
  destruct (timerExpired_cases (set_clock t s)) as (th & [-> | ->]); eauto 6.
Qed.

(** What one event does to the two stores, hostname by hostname. *)
Lemma dispatch_stores (t : Z) (ev : Event) (s : Service) :
  ∃ s',
    dispatch t ev s = Some ((), s')
    ∧ parsedCIDRList s' = parsedCIDRList s
    ∧ ∀ k,
        (event_hostname ev ≠ Some k →
           webRequestErrorHostnames s' !! k = webRequestErrorHostnames s !! k
           ∧ nonRoutableHostnames s' !! k = nonRoutableHostnames s !! k)
        ∧ (event_hostname ev = Some k →
           webRequestErrorHostnames s' !! k = None
           ∨ nonRoutableHostnames s' !! k = None).
Proof.
  destruct (event_hostname ev) as [h|] eqn:Hev.
  - destruct ev as [d|details|]; [| |done].
    + rewrite dispatch_report.
      destruct (handleNonRoutableDomains_outcome d h (set_clock t s) Hev)
        as [[_ ->] | (tabId & url & s1 & _ & Hadd & ->)].
      * eexists. split; [done|]. split; [done|]. intros k. cbn. split.
        -- intros Hk. assert (h ≠ k) by congruence.
           by rewrite lookup_delete_ne, lookup_insert_ne.
        -- intros [= ->]. left. apply lookup_delete_eq.
      * destruct (addHostname_frame h
                    (set_webRequestErrorHostnames
                       (delete h (webRequestErrorHostnames (set_clock t s)))
                       (set_clock t s)))
          as (s1' & new & Hrun & _ & _ & Hw & Hn & Hc & _).
        rewrite Hadd in Hrun. injection Hrun as <-.
        eexists. split; [done|]. cbn. split; [done|]. intros k.
        rewrite Hw, Hn. cbn. split.
        -- intros Hk. assert (h ≠ k) by congruence. by rewrite lookup_delete_ne.
        -- intros [= ->]. left. apply lookup_delete_eq.
    + rewrite dispatch_webRequest.
      destruct (handleWebRequestErrors_outcome details h (set_clock t s) Hev)
        as [[Hnone ->] | (s1 & _ & Hadd & ->)].
      * eexists. split; [done|]. split; [done|]. intros k. cbn. split.
        -- intros Hk. assert (h ≠ k) by congruence. by rewrite lookup_insert_ne.
        -- intros [= ->]. by right.
      * destruct (addHostname_frame h
                    (set_nonRoutableHostnames
                       (delete h (nonRoutableHostnames (set_clock t s)))
                       (set_clock t s)))
          as (s1' & new & Hrun & _ & _ & Hw & Hn & Hc & _).
        rewrite Hadd in Hrun. injection Hrun as <-.
        eexists. split; [done|]. cbn. split; [done|]. intros k.
        rewrite Hw, Hn. cbn. split.
        -- intros Hk. assert (h ≠ k) by congruence. by rewrite lookup_delete_ne.
        -- intros [= ->]. right. apply lookup_delete_eq.
  - assert (∃ s', dispatch t ev s = Some ((), s')
                  ∧ parsedCIDRList s' = parsedCIDRList s
                  ∧ webRequestErrorHostnames s' = webRequestErrorHostnames s
                  ∧ nonRoutableHostnames s' = nonRoutableHostnames s)
      as (s' & Hrun & Hc & Hw & Hn).
    { pose proof (handler_guarded ev (set_clock t s) Hev) as Hg.
      destruct ev as [d|details|].
      - rewrite dispatch_report, Hg. by eexists.
      - rewrite dispatch_webRequest, Hg. by eexists.
      - destruct (timer_step_cases t s) as (s' & -> & [-> | [[th ->] | [th ->]]]);
          by eexists. }
    exists s'. split; [done|]. split; [done|]. intros k.
    rewrite Hw, Hn. by split.
Qed.

(** X2: the event loop never throws, and it never leaves a hostname pending
    in both stores when none was before. *)
Theorem run_keeps_stores_disjoint (evs : list (Z * Event)) (s : Service) :
  stores_disjoint s →
  ∃ s', run evs s = Some ((), s') ∧ stores_disjoint s'.
Proof.
  revert s. induction evs as [|[t ev] evs IH]; intros s Hdisj.
  - by exists s.
  - destruct (dispatch_stores t ev s) as (s1 & Hrun & _ & Hk).
    cbn. step_M. rewrite Hrun. apply IH.
    intros k. destruct (decide (event_hostname ev = Some k)) as [Heq|Hne].
    + by apply Hk.
    + destruct (proj1 (Hk k) Hne) as [-> ->]. apply Hdisj.
Qed.

(** X3: an event changes, in either store, only the entry of the hostname
    it is about. *)
Theorem events_touch_only_their_hostname (t : Z) (ev : Event) (s : Service)
    (k : string) :
  event_hostname ev ≠ Some k →
  ∃ s',
    dispatch t ev s = Some ((), s')
    ∧ webRequestErrorHostnames s' !! k = webRequestErrorHostnames s !! k
    ∧ nonRoutableHostnames s' !! k = nonRoutableHostnames s !! k.
Proof.
  intros Hne. destruct (dispatch_stores t ev s) as (s' & Hrun & _ & Hk).
  exists s'. split; [done|]. by apply Hk.
Qed.

(** ** List, effect log and throttle under the event loop *)

(** A call of the throttled function that does not flush leaves a timer
    running and the call waiting for it. *)
Lemma updateStorage_schedules (s : Service) :
  ∃ t, updateStorage s = Some ((), flushed t s)
       ∨ (updateStorage s = Some ((), set_throttle t s)
          ∧ is_Some (Throttle.timerId t) ∧ Throttle.lastArgs t = true).
Proof.
  destruct s as [l cidrs m1 m2 [args timer lastCall lastInvoke] es now].
  unfold updateStorage, leadingEdge, invokeFunc, updateStorage_func, flushed.
  step_M. cbn.
  destruct (shouldInvoke _ _), timer; cbn; eauto 8.
Qed.

(** The timer callback either flushes, or keeps the waiting call waiting;
    it drops the timer only when no call is waiting. *)
Lemma timerExpired_keeps (s : Service) :
  ∃ t, timerExpired s = Some ((), flushed t s)
       ∨ (timerExpired s = Some ((), set_throttle t s)
          ∧ Throttle.lastArgs t = Throttle.lastArgs (updateStorage_throttle s)
          ∧ (Throttle.timerId t = None → Throttle.lastArgs t = false)).
Proof.
  destruct s as [l cidrs m1 m2 [args timer lastCall lastInvoke] es now].
  unfold timerExpired, trailingEdge, invokeFunc, updateStorage_func, flushed.
  step_M. cbn.
  destruct (shouldInvoke _ _), args; cbn; eexists;
    first [by left | right; by split_and!].
Qed.

(** One event seen from the list, the effect log and the throttle: nothing
    happens to them, or the timer callback runs, or [addHostname] is called
    and a notification and a retry follow. *)
Lemma dispatch_core (t : Z) (ev : Event) (s : Service) :
  ∃ s',
    dispatch t ev s = Some ((), s')
    ∧ ((nonRoutableList s' = nonRoutableList s
        ∧ effects s' = effects s
        ∧ updateStorage_throttle s' = updateStorage_throttle s)
       ∨ (∃ th, s' = flushed th (set_clock t s))
       ∨ (∃ th, s' = set_throttle th (set_clock t s)
                ∧ Throttle.lastArgs th = Throttle.lastArgs (updateStorage_throttle s)
                ∧ (Throttle.timerId th = None → Throttle.lastArgs th = false))
       ∨ (∃ h tabId url s0 s1,
            event_hostname ev = Some h
            ∧ nonRoutableList s0 = nonRoutableList s
            ∧ effects s0 = effects s
            ∧ updateStorage_throttle s0 = updateStorage_throttle s
            ∧ addHostname h s0 = Some ((), s1)
            ∧ s' = log_effect (TabsUpdate tabId url)
                     (log_effect (NotifyListeners h) s1))).
Proof.
  destruct (event_hostname ev) as [h|] eqn:Hev.
  - destruct ev as [d|details|]; [| |done].
    + rewrite dispatch_report.
      destruct (handleNonRoutableDomains_outcome d h (set_clock t s) Hev)
        as [[_ ->] | (tabId & url & s1 & _ & Hadd & ->)].
      * eexists. split; [done|]. by left.
      * eexists. split; [done|]. do 3 right.
        exists h, tabId, url,
          (set_webRequestErrorHostnames
             (delete h (webRequestErrorHostnames (set_clock t s))) (set_clock t s)), s1.
        by split_and!.
    + rewrite dispatch_webRequest.
      destruct (handleWebRequestErrors_outcome details h (set_clock t s) Hev)
        as [[_ ->] | (s1 & _ & Hadd & ->)].
      * eexists. split; [done|]. by left.
      * eexists. split; [done|]. do 3 right.
        exists h, (Details.tabId details), (Details.url details),
          (set_nonRoutableHostnames
             (delete h (nonRoutableHostnames (set_clock t s))) (set_clock t s)), s1.
        by split_and!.
  - pose proof (handler_guarded ev (set_clock t s) Hev) as Hg.
    destruct ev as [d|details|].
    + rewrite dispatch_report, Hg. eexists. split; [done|]. by left.
    + rewrite dispatch_webRequest, Hg. eexists. split; [done|]. by left.
    + unfold dispatch. step_M. cbn.
      destruct (Throttle.timerId (updateStorage_throttle s)) as [due|];
        [|eexists; split; [done|]; by left].
      destruct (due <=? t); [|eexists; split; [done|]; by left].
      destruct (timerExpired_keeps (set_clock t s)) as (th & [-> | (-> & ? & ?)]).
      * eexists. split; [done|]. right. left. by exists th.
      * eexists. split; [done|]. right. right. left. by exists th.
Qed.

Lemma run_cons (t : Z) (ev : Event) (evs : list (Z * Event)) (s s1 : Service) :
  dispatch t ev s = Some ((), s1) →
  run ((t, ev) :: evs) s = run evs s1.
Proof. intros Hrun. cbn. step_M. by rewrite Hrun. Qed.

(** X4: the event loop keeps the list free of duplicates. *)
Theorem run_keeps_list_duplicate_free (evs : list (Z * Event)) (s : Service) :
  NoDup (nonRoutableList s) →
  ∃ s', run evs s = Some ((), s') ∧ NoDup (nonRoutableList s').
Proof.
  revert s. induction evs as [|[t ev] evs IH]; intros s Hnd.
  - by exists s.
  - destruct (dispatch_core t ev s)
      as (s1 & Hrun & [(Hl & _) | [[th ->] | [(th & -> & _) |
            (h & tabId & url & s0 & s1' & _ & Hl & _ & _ & Hadd & ->)]]]);
      rewrite (run_cons _ _ _ _ _ Hrun); apply IH; cbn.
    + by rewrite Hl.
    + by apply trimList_NoDup.
    + done.
    + destruct (addHostname_list h s0) as (s2 & new & Hadd' & Hnd' & _);
        [by rewrite Hl|].
      rewrite Hadd in Hadd'. by injection Hadd' as <-.
Qed.

(** ** Persistence *)

Lemma addHostname_outcome (h : string) (s : Service) :
  (h ∈ nonRoutableList s
   ∧ addHostname h s = Some ((), log_effect (CallAddHostname h) s))
  ∨ ((h ∉ nonRoutableList s)
     ∧ ∃ t,
         let s1 := set_nonRoutableList (nonRoutableList s ++ [h])
                     (log_effect (CallAddHostname h) s) in
         (addHostname h s = Some ((), flushed t s1)
          ∨ (addHostname h s = Some ((), set_throttle t s1)
             ∧ is_Some (Throttle.timerId t) ∧ Throttle.lastArgs t = true))).
Proof.
  destruct (decide (h ∈ nonRoutableList s)) as [Hin|Hout].
  - left. split; [done|]. by apply addHostname_present.
  - right. split; [done|]. unfold addHostname. step_M. cbn.
    destruct (decide (h ∈ nonRoutableList s)); [done|].
    apply updateStorage_schedules.
Qed.

Lemma last_stored_snoc (l0 : list string) (es : list Effect) (e : Effect) :
  last_stored l0 (es ++ [e])
  = match e with StorageSet l => l | _ => last_stored l0 es end.
Proof. unfold last_stored. by rewrite fold_left_app. Qed.

Lemma persisted_or_scheduled_ext (l0 : list string) (s s' : Service) :
  nonRoutableList s' = nonRoutableList s →
  effects s' = effects s →
  updateStorage_throttle s' = updateStorage_throttle s →
  persisted_or_scheduled l0 s → persisted_or_scheduled l0 s'.
Proof.
  unfold persisted_or_scheduled, flush_scheduled. by intros -> -> ->.
Qed.

Lemma persisted_or_scheduled_log (l0 : list string) (e : Effect) (s : Service) :
  is_storageSet e = false →
  persisted_or_scheduled l0 s → persisted_or_scheduled l0 (log_effect e s).
Proof.
  intros He [Hs | [Hp Hlen]]; [by left|]. right.
  change (effects (log_effect e s)) with (effects s ++ [e]).
  rewrite last_stored_snoc. by destruct e.
Qed.

Lemma persisted_or_scheduled_flushed (l0 : list string) (th : Throttle.t)
    (s : Service) :
  persisted_or_scheduled l0 (flushed th s).
Proof.
  right.
  change (effects (flushed th s))
    with (effects s ++ [StorageSet (trimList (nonRoutableList s))]).
  rewrite last_stored_snoc. split; [done|]. apply trimList_length.
Qed.

Lemma persisted_or_scheduled_addHostname (l0 : list string) (h : string)
    (s s1 : Service) :
  persisted_or_scheduled l0 s →
  addHostname h s = Some ((), s1) →
  persisted_or_scheduled l0 s1.
Proof.
  intros Hpos Hadd.
  destruct (addHostname_outcome h s) as [[_ Hrun] | (_ & t & [Hrun | (Hrun & ? & ?)])];
    rewrite Hrun in Hadd; injection Hadd as <-.
  - by apply persisted_or_scheduled_log.
  - apply persisted_or_scheduled_flushed.
  - by left.
Qed.

Lemma persisted_or_scheduled_dispatch (l0 : list string) (t : Z) (ev : Event)
    (s : Service) :
  persisted_or_scheduled l0 s →
  ∃ s', dispatch t ev s = Some ((), s') ∧ persisted_or_scheduled l0 s'.
Proof.
  intros Hpos.
  destruct (dispatch_core t ev s)
    as (s1 & Hrun & [(Hl & He & Ht) | [[th ->] | [(th & -> & Hargs & Htimer) |
          (h & tabId & url & s0 & s1' & _ & Hl & He & Ht & Hadd & ->)]]]);
    exists s1 || eexists; (split; [exact Hrun|]).
  - by apply (persisted_or_scheduled_ext l0 s).
  - apply persisted_or_scheduled_flushed.
  - destruct Hpos as [[_ Hwait] | Hp].
    + left. split; cbn; [|congruence].
      destruct (Throttle.timerId th); [done|]. rewrite Htimer in Hargs by done.
      congruence.
    + by right.
  - do 2 (apply persisted_or_scheduled_log; [done|]).
    apply (persisted_or_scheduled_addHostname l0 h s0); [|done].
    by apply (persisted_or_scheduled_ext l0 s).
Qed.

(** X5: no update of the list is lost.  Along the event loop and along
    direct calls of [addHostname], whenever the list differs from what was
    last handed to the storage, or is longer than the maximum, the throttle
    has a timer running with a call waiting for it. *)
Theorem list_is_persisted_or_flush_is_scheduled (l0 : list string) (s : Service) :
  persisted_or_scheduled l0 s →
  (∀ evs, ∃ s', run evs s = Some ((), s') ∧ persisted_or_scheduled l0 s')
  ∧ (∀ calls, ∃ s', addAll calls s = Some ((), s') ∧ persisted_or_scheduled l0 s').
Proof.
  intros Hpos. split.
  - intros evs. revert s Hpos.
    induction evs as [|[t ev] evs IH]; intros s Hpos; [by exists s|].
    destruct (persisted_or_scheduled_dispatch l0 t ev s Hpos) as (s1 & Hrun & Hpos1).
    rewrite (run_cons _ _ _ _ _ Hrun). by apply IH.
  - intros calls. revert s Hpos.
    induction calls as [|[t h] calls IH]; intros s Hpos; [by exists s|].
    destruct (addHostname_frame h (set_clock t s)) as (s1 & new & Hadd & _).
    unfold addAll. cbn [forEach]. step_M. rewrite Hadd. apply IH.
    apply (persisted_or_scheduled_addHostname l0 h (set_clock t s)); [|done].
    by apply (persisted_or_scheduled_ext l0 s).
Qed.

(** ** Effects *)

Lemma balanced_app (new1 new2 : list Effect) :
  balanced new1 → balanced new2 → balanced (new1 ++ new2).
Proof.
  unfold balanced. rewrite !List.filter_app, !length_app. lia.
Qed.

(** X6: along the event loop the service makes as many calls of
    [tabs.update] as it sends notifications and as it calls [addHostname]:
    no retry without a commit, no commit without a retry. *)
Theorem run_effects_balanced (evs : list (Z * Event)) (s : Service) :
  ∃ s' new,
    run evs s = Some ((), s')
    ∧ effects s' = effects s ++ new
    ∧ balanced new.
Proof.
  revert s. induction evs as [|[t ev] evs IH]; intros s.
  - exists s, []. by rewrite app_nil_r.
  - assert (∃ s1 new1, dispatch t ev s = Some ((), s1)
                       ∧ effects s1 = effects s ++ new1 ∧ balanced new1)
      as (s1 & new1 & Hrun & He1 & Hb1).
    { destruct (dispatch_core t ev s)
        as (s1 & Hrun & [(_ & He & _) | [[th ->] | [(th & -> & _) |
              (h & tabId & url & s0 & s1' & _ & _ & He & _ & Hadd & ->)]]]).
      - exists s1, []. by rewrite app_nil_r.
      - eexists _, [_]. by split_and!.
      - eexists _, []. split; [done|]. by rewrite app_nil_r.
      - destruct (addHostname_frame h s0) as (s2 & new & Hadd' & He2 & Hnew & _).
        rewrite Hadd in Hadd'. injection Hadd' as <-.
        eexists _, (CallAddHostname h :: new
                    ++ [NotifyListeners h; TabsUpdate tabId url]).
        split; [done|]. split.
        + cbn. by rewrite He2, He, <- !app_assoc.
        + unfold balanced. cbn. rewrite !List.filter_app.
          rewrite (filter_storageSet is_addHostname), (filter_storageSet is_notify),
            (filter_storageSet is_tabsUpdate) by done.
          done. }
    destruct (IH s1) as (s' & new & Hrun' & He & Hb).
    exists s', (new1 ++ new). rewrite (run_cons _ _ _ _ _ Hrun).
    split; [done|]. split; [by rewrite He, He1, app_assoc|].
    by apply balanced_app.
Qed.

(** ** Matching *)

(** X7: the age of a pending entry plays no part in matching.  A report
    commits against a stored transport failure with a usable tab and URL,
    and a transport failure commits against a stored report, at whatever
    time the second event is handled. *)
Theorem pending_entries_match_at_any_age (h : string) (s : Service) :
  Js.truthy_string h = true →
  (∀ d added tabId url t,
      Js.truthy_string d = true →
      getHostname d = Some h →
      webRequestErrorHostnames s !! h
        = Some (HostnameData.Build added (Some tabId) (Some url)) →
      tabId ≠ 0 →
      Js.truthy_string url = true →
      ∃ s', dispatch t (NonRoutableDomainFound d) s = Some ((), s')
            ∧ commits h tabId url s s')
  ∧ (∀ details v t,
      triggers details = true →
      getHostname (Details.url details) = Some h →
      nonRoutableHostnames s !! h = Some v →
      ∃ s', dispatch t (WebRequest details) s = Some ((), s')
            ∧ commits h (Details.tabId details) (Details.url details) s s').
Proof.
  intros Hth. split.
  - intros d added tabId url t Hd Hh Hv Htab Hurl.
    rewrite dispatch_report.
    destruct (handleNonRoutableDomains_commit d h (set_clock t s) tabId url)
      as (s' & Hrun & Hc & _); [done..| |by exists s'].
    cbn. rewrite Hv. cbn. by rewrite truthy_number_nonzero, Hurl.
  - intros details v t Htr Hh Hv.
    rewrite dispatch_webRequest.
    destruct (handleWebRequestErrors_commit details h (set_clock t s) v)
      as (s' & Hrun & Hc & _); [done..|by exists s'].
Qed.

(** X8: a pair matched for a hostname that is already on the list still
    calls [addHostname], notifies and retries, once each, but leaves the
    list and the throttle alone and writes nothing to the storage. *)
Theorem listed_hostname_is_notified_again (h : string) (details : Details.t)
    (v : HostnameData.t) (s : Service) :
  triggers details = true →
  getHostname (Details.url details) = Some h →
  Js.truthy_string h = true →
  nonRoutableHostnames s !! h = Some v →
  h ∈ nonRoutableList s →
  ∃ s',
    handleWebRequestErrors details s = Some ((), s')
    ∧ effects s'
      = effects s ++ [CallAddHostname h; NotifyListeners h;
                      TabsUpdate (Details.tabId details) (Details.url details)]
    ∧ nonRoutableList s' = nonRoutableList s
    ∧ updateStorage_throttle s' = updateStorage_throttle s.
Proof.
  intros Htr Hh Hth Hv Hin.
  assert (event_hostname (WebRequest details) = Some h) as Hev.
  { cbn. rewrite Htr. apply extractHostname_Some. by split. }
  destruct (handleWebRequestErrors_outcome details h s Hev)
    as [[Hnone _] | (s1 & _ & Hadd & ->)]; [congruence|].
  rewrite addHostname_present in Hadd by done. injection Hadd as <-.
  eexists. split; [done|]. cbn. by rewrite <- !app_assoc.
Qed.

(** ** Classifier and list together *)

Lemma listed_hostname_not_routable (url h : string) (s : Service) :
  getHostname url = Some h →
  Js.truthy_string h = true →
  h ∈ nonRoutableList s →
  fst <$> isUrlRoutable url s = Some false.
Proof.
  intros Hh Hth Hin. rewrite isUrlRoutable_eq. cbn.
  unfold routable_by_spec.
  rewrite (proj2 (extractHostname_Some url h)) by done.
  destruct (decide _) as [|Hn]; [done|]. destruct Hn. by right.
Qed.

(** X9: once [addHostname] has returned, every URL with that hostname is
    classified as not routable. *)
Theorem added_hostname_is_not_routable (url h : string) (s : Service) :
  getHostname url = Some h →
  Js.truthy_string h = true →
  ∃ s',
    addHostname h s = Some ((), s')
    ∧ fst <$> isUrlRoutable url s' = Some false.
Proof.
  intros Hh Hth.
  destruct (addHostname_frame h s) as (s' & new & Hrun & _ & _ & _ & _ & _ & _ & Hin).
  exists s'. split; [done|]. by apply (listed_hostname_not_routable url h).
Qed.

(** X10: the verdict depends on the instance only through the list and the
    parsed ranges, and learning hostnames never makes a URL routable: with
    the same ranges and a list that holds at least the same hostnames, a
    URL that was not routable is still not routable. *)
Theorem learning_never_makes_routable (url : string) (s s' : Service) :
  parsedCIDRList s' = parsedCIDRList s →
  (∀ h, h ∈ nonRoutableList s → h ∈ nonRoutableList s') →
  fst <$> isUrlRoutable url s = Some false →
  fst <$> isUrlRoutable url s' = Some false.
Proof.
  rewrite !isUrlRoutable_eq. cbn. unfold routable_by_spec.
  intros -> Hsub.
  destruct (extractHostname url) as [h|]; [|done].
  destruct (decide (h = LOCALHOST ∨ h ∈ nonRoutableList s')) as [|Hn']; [done|].
  destruct (decide (h = LOCALHOST ∨ h ∈ nonRoutableList s)) as [Hor|Hn]; [|done].
  destruct Hn'. destruct Hor; [by left|]. right. by apply Hsub.
Qed.

Lemma run_keeps_parsedCIDRList (evs : list (Z * Event)) (s : Service) :
  ∃ s', run evs s = Some ((), s') ∧ parsedCIDRList s' = parsedCIDRList s.
Proof.
  revert s. induction evs as [|[t ev] evs IH]; intros s; [by exists s|].
  destruct (dispatch_stores t ev s) as (s1 & Hrun & Hc & _).
  rewrite (run_cons _ _ _ _ _ Hrun).
  destruct (IH s1) as (s' & ? & ?). exists s'. split; [done|]. congruence.
Qed.

(** X11: no run of events changes the verdict on an address inside a
    configured range: an IPv4 literal that a parsed range matches is not
    routable before and after any events. *)
Theorem configured_ranges_hold_along_runs (url h : string) (addr : V4)
    (range : CIDR) (s : Service) (evs : list (Z * Event)) :
  getHostname url = Some h →
  Js.truthy_string h = true →
  isIP h = true →
  ipaddr_parse h = IPv4 addr →
  range ∈ parsedCIDRList s →
  ipaddr_match addr range = true →
  ∃ s',
    run evs s = Some ((), s')
    ∧ fst <$> isUrlRoutable url s = Some false
    ∧ fst <$> isUrlRoutable url s' = Some false.
Proof.
  intros Hh Hth Hip Hparse Hin Hmatch.
  assert (∀ s0, parsedCIDRList s0 = parsedCIDRList s →
                fst <$> isUrlRoutable url s0 = Some false) as Hfalse.
  { intros s0 Hc. rewrite isUrlRoutable_eq. cbn. unfold routable_by_spec.
    rewrite (proj2 (extractHostname_Some url h)) by done.
    destruct (decide _); [done|]. rewrite Hip, Hparse.
    destruct (decide (Exists _ _)) as [|Hn]; [done|]. destruct Hn.
    rewrite Hc. apply Exists_exists. eauto. }
  destruct (run_keeps_parsedCIDRList evs s) as (s' & Hrun & Hc).
  exists s'. split; [done|]. split; by apply Hfalse.
Qed.

(** ** Flush and start-up *)

(** X12: flushing twice is flushing once: a flush right after a flush
    evicts nothing and hands the same list to the storage again. *)
Theorem second_flush_changes_nothing (s : Service) :
  ∃ s1 s2,
    updateStorage_func s = Some ((), s1)
    ∧ updateStorage_func s1 = Some ((), s2)
    ∧ nonRoutableList s2 = nonRoutableList s1
    ∧ effects s2 = effects s1 ++ [StorageSet (nonRoutableList s1)].
Proof.
  rewrite updateStorage_func_flushes. eexists _, _. split; [done|].
  rewrite updateStorage_func_flushes. split; [done|]. cbn.
  by rewrite (trimList_within (trimList _)) by apply trimList_length.
Qed.

(** X13: [init] takes the stored list as it is, or the empty list when the
    key is absent, and from then on every URL whose hostname is on the
    stored list is not routable. *)
Theorem stored_hostnames_are_not_routable_after_init (stored : list string)
    (url h : string) (s : Service) :
  getHostname url = Some h →
  Js.truthy_string h = true →
  h ∈ stored →
  ∃ s' s0,
    init (Some stored) s = Some ((), s')
    ∧ nonRoutableList s' = stored
    ∧ fst <$> isUrlRoutable url s' = Some false
    ∧ init None s = Some ((), s0)
    ∧ nonRoutableList s0 = [].
Proof.
  intros Hh Hth Hin. eexists _, _. split; [done|]. cbn.
  split; [done|]. split; [|done].
  by apply (listed_hostname_not_routable url h).
Qed.

(** ** DNS server addresses *)

Lemma prefix_append (p a : string) : String.prefix p (String.append p a) = true.
Proof.
  induction p as [|c p IH]; [by destruct a|].
  change (String.append (String c p) a) with (String c (String.append p a)).
  simpl. by destruct (ascii_dec c c).
Qed.

(** X14: normalising a DNS server address twice is normalising it once,
    and a normalised address is an IP address or starts with [tls://]. *)
Theorem normalizeDnsServerAddress_idempotent (address : string) :
  normalizeDnsServerAddress (normalizeDnsServerAddress address)
  = normalizeDnsServerAddress address
  ∧ (isIP (normalizeDnsServerAddress address) = true
     ∨ String.prefix DOT_PREFIX (normalizeDnsServerAddress address) = true).
Proof.
  unfold normalizeDnsServerAddress.
  destruct (isIP address) eqn:Hip; cbn [orb].
  - rewrite Hip. cbn [orb]. split; [done|by left].
  - destruct (String.prefix DOT_PREFIX address) eqn:Hpre.
    + rewrite Hip, Hpre. cbn [orb]. split; [done|by right].
    + rewrite prefix_append, orb_true_r. split; [done|by right].
Qed.

(** ** Provenance of commits and pending entries *)

(** X15: pending entries never expire.  Along a run in which no event is
    about the hostname [k], whatever the times of the events, both stores
    hold for [k] exactly what they held before. *)
Theorem pending_entries_never_expire (evs : list (Z * Event)) (k : string)
    (s : Service) :
  Forall (λ tev, event_hostname (snd tev) ≠ Some k) evs →
  ∃ s',
    run evs s = Some ((), s')
    ∧ webRequestErrorHostnames s' !! k = webRequestErrorHostnames s !! k
    ∧ nonRoutableHostnames s' !! k = nonRoutableHostnames s !! k.
Proof.
  intros Hevs. revert s.
  induction Hevs as [|[t ev] evs Hne _ IH]; intros s; [by exists s|].
  destruct (dispatch_stores t ev s) as (s1 & Hrun & _ & Hk).
  destruct (proj1 (Hk k) Hne) as [Hw Hn].
  rewrite (run_cons _ _ _ _ _ Hrun).
  destruct (IH s1) as (s' & ? & Hw' & Hn'). exists s'.
  split; [done|]. by rewrite Hw', Hn', Hw, Hn.
Qed.

Lemma committed_log (k : string) (e : Effect) (s : Service) :
  is_addHostname e = false →
  committed k (log_effect e s) → committed k s.
Proof.
  intros He [Hin | Hin]; [by left|]. right. cbn in Hin.
  apply elem_of_app in Hin as [Hin | Hin%list_elem_of_singleton]; [done|].
  by subst e.
Qed.

Lemma committed_ext (k : string) (s s' : Service) :
  nonRoutableList s' = nonRoutableList s →
  effects s' = effects s →
  committed k s' → committed k s.
Proof. unfold committed. by intros -> ->. Qed.

Lemma committed_flushed (k : string) (th : Throttle.t) (s : Service) :
  committed k (flushed th s) → committed k s.
Proof.
  intros [Hin | Hin]; cbn in Hin.
  - left. destruct (trimList_suffix (nonRoutableList s)) as [pre Hpre].
    rewrite Hpre. apply elem_of_app. by right.
  - right. by apply elem_of_app in Hin as [Hin | Hin%list_elem_of_singleton].
Qed.

Lemma committed_addHostname (k h : string) (s s1 : Service) :
  addHostname h s = Some ((), s1) →
  committed k s1 → committed k s ∨ k = h.
Proof.
  intros Hadd Hk.
  destruct (addHostname_outcome h s) as [[_ Hrun] | (_ & t & [Hrun | (Hrun & _)])];
    rewrite Hrun in Hadd; injection Hadd as <-.
  - destruct Hk as [Hin | Hin]; [left; by left|]. cbn in Hin.
    apply elem_of_app in Hin as [Hin | [= ->]%list_elem_of_singleton];
      [left; by right | by right].
  - apply committed_flushed in Hk. destruct Hk as [Hin | Hin]; cbn in Hin.
    + apply elem_of_app in Hin as [Hin | ->%list_elem_of_singleton];
        [left; by left | by right].
    + apply elem_of_app in Hin as [Hin | [= ->]%list_elem_of_singleton];
        [left; by right | by right].
  - destruct Hk as [Hin | Hin]; cbn in Hin.
    + apply elem_of_app in Hin as [Hin | ->%list_elem_of_singleton];
        [left; by left | by right].
    + apply elem_of_app in Hin as [Hin | [= ->]%list_elem_of_singleton];
        [left; by right | by right].
Qed.

Lemma tabId_and_url_is_Some (v : option HostnameData.t) (p : Z * string) :
  tabId_and_url v = Some p → is_Some v.
Proof. destruct v; [by eexists|done]. Qed.

(** Where the pending entries and the commits of one event come from. *)
Lemma dispatch_provenance (t : Z) (ev : Event) (s : Service) :
  ∃ s',
    dispatch t ev s = Some ((), s')
    ∧ (∀ k, is_Some (webRequestErrorHostnames s' !! k) →
            is_Some (webRequestErrorHostnames s !! k)
            ∨ failed_in [(t, ev)] k)
    ∧ (∀ k, is_Some (nonRoutableHostnames s' !! k) →
            is_Some (nonRoutableHostnames s !! k)
            ∨ reported_in [(t, ev)] k)
    ∧ (∀ k, committed k s' →
            committed k s
            ∨ (reported_in [(t, ev)] k ∧ is_Some (webRequestErrorHostnames s !! k))
            ∨ (failed_in [(t, ev)] k ∧ is_Some (nonRoutableHostnames s !! k))).
Proof.
  destruct (event_hostname ev) as [h|] eqn:Hev.
  - destruct ev as [d|details|]; [| |done].
    + assert (reported_in [(t, NonRoutableDomainFound d)] h) as Hrep.
      { exists t, d. split; [apply list_elem_of_here|done]. }
      rewrite dispatch_report.
      destruct (handleNonRoutableDomains_outcome d h (set_clock t s) Hev)
        as [[_ ->] | (tabId & url & s1 & Huse & Hadd & ->)].
      * eexists. split; [done|]. cbn. split_and!.
        -- intros k Hk. left. by apply lookup_delete_is_Some in Hk as [_ ?].
        -- intros k Hk. apply lookup_insert_is_Some in Hk as [<- | [_ ?]];
             [by right | by left].
        -- intros k Hk. by left.
      * destruct (addHostname_frame h
                    (set_webRequestErrorHostnames
                       (delete h (webRequestErrorHostnames (set_clock t s)))
                       (set_clock t s)))
          as (s1' & new & Hrun & _ & _ & Hw & Hn & _).
        rewrite Hadd in Hrun. injection Hrun as <-.
        eexists. split; [done|]. cbn. rewrite Hw, Hn. cbn. split_and!.
        -- intros k Hk. left. by apply lookup_delete_is_Some in Hk as [_ ?].
        -- intros k Hk. by left.
        -- intros k Hk. do 2 (apply committed_log in Hk; [|done]).
           apply (committed_addHostname k h _ _ Hadd) in Hk as [Hk | ->].
           ++ left. by apply (committed_ext k s) in Hk.
           ++ right. left. split; [done|].
              by apply tabId_and_url_is_Some in Huse.
    + assert (failed_in [(t, WebRequest details)] h) as Hfail.
      { exists t, details. split; [apply list_elem_of_here|done]. }
      rewrite dispatch_webRequest.
      destruct (handleWebRequestErrors_outcome details h (set_clock t s) Hev)
        as [[_ ->] | (s1 & Hsome & Hadd & ->)].
      * eexists. split; [done|]. cbn. split_and!.
        -- intros k Hk. apply lookup_insert_is_Some in Hk as [<- | [_ ?]];
             [by right | by left].
        -- intros k Hk. by left.
        -- intros k Hk. by left.
      * destruct (addHostname_frame h
                    (set_nonRoutableHostnames
                       (delete h (nonRoutableHostnames (set_clock t s)))
                       (set_clock t s)))
          as (s1' & new & Hrun & _ & _ & Hw & Hn & _).
        rewrite Hadd in Hrun. injection Hrun as <-.
        eexists. split; [done|]. cbn. rewrite Hw, Hn. cbn. split_and!.
        -- intros k Hk. by left.
        -- intros k Hk. left. by apply lookup_delete_is_Some in Hk as [_ ?].
        -- intros k Hk. do 2 (apply committed_log in Hk; [|done]).
           apply (committed_addHostname k h _ _ Hadd) in Hk as [Hk | ->].
           ++ left. by apply (committed_ext k s) in Hk.
           ++ right. right. by split.
  - destruct (dispatch_stores t ev s) as (s' & Hrun & _ & Hk).
    assert (∀ k, event_hostname ev ≠ Some k) as Hne by (intros k; congruence).
    exists s'. split; [done|]. split_and!.
    + intros k. destruct (proj1 (Hk k) (Hne k)) as [-> _]. by left.
    + intros k. destruct (proj1 (Hk k) (Hne k)) as [_ ->]. by left.
    + intros k Hc. left.
      destruct (dispatch_core t ev s)
        as (s1 & Hrun1 & [(Hl & He & _) | [[th ->] | [(th & -> & _) |
              (h & tabId & url & s0 & s1' & Hevh & _)]]]);
        [| | |congruence];
        rewrite Hrun in Hrun1; injection Hrun1 as ->.
      * by apply (committed_ext k s) in Hc.
      * apply committed_flushed in Hc. by apply (committed_ext k s) in Hc.
      * by apply (committed_ext k s) in Hc.
Qed.

Lemma reported_in_app (pre post : list (Z * Event)) (k : string) :
  reported_in pre k ∨ reported_in post k → reported_in (pre ++ post) k.
Proof.
  intros [(t & d & Hin & ?) | (t & d & Hin & ?)]; exists t, d;
    (split; [|done]); apply elem_of_app; auto.
Qed.

Lemma failed_in_app (pre post : list (Z * Event)) (k : string) :
  failed_in pre k ∨ failed_in post k → failed_in (pre ++ post) k.
Proof.
  intros [(t & d & Hin & ?) | (t & d & Hin & ?)]; exists t, d;
    (split; [|done]); apply elem_of_app; auto.
Qed.

(** Every pending failure comes from a failure event, every pending report
    from a report event, and every commit from both. *)
Lemma run_provenance (init : Service) (evs : list (Z * Event)) :
  ∀ (pre : list (Z * Event)) (s : Service),
    (∀ k, is_Some (webRequestErrorHostnames s !! k) → failed_in pre k) →
    (∀ k, is_Some (nonRoutableHostnames s !! k) → reported_in pre k) →
    (∀ k, committed k s →
          committed k init ∨ (reported_in pre k ∧ failed_in pre k)) →
    ∃ s',
      run evs s = Some ((), s')
      ∧ ∀ k, committed k s' →
             committed k init
             ∨ (reported_in (pre ++ evs) k ∧ failed_in (pre ++ evs) k).
Proof.
  induction evs as [|[t ev] evs IH]; intros pre s Hw Hn Hc.
  - exists s. split; [done|]. by rewrite app_nil_r.
  - destruct (dispatch_provenance t ev s) as (s1 & Hrun & Hw1 & Hn1 & Hc1).
    rewrite (run_cons _ _ _ _ _ Hrun).
    replace (pre ++ (t, ev) :: evs) with ((pre ++ [(t, ev)]) ++ evs)
      by by rewrite <- app_assoc.
    apply IH.
    + intros k Hk. apply failed_in_app.
      destruct (Hw1 k Hk) as [?%Hw | ?]; auto.
    + intros k Hk. apply reported_in_app.
      destruct (Hn1 k Hk) as [?%Hn | ?]; auto.
    + intros k Hk.
      destruct (Hc1 k Hk) as [Hold | [[Hrep Hsome] | [Hfail Hsome]]].
      * destruct (Hc k Hold) as [? | [? ?]]; [by left|right].
        split; [apply reported_in_app | apply failed_in_app]; auto.
      * right. split; [apply reported_in_app | apply failed_in_app]; auto.
      * right. split; [apply reported_in_app | apply failed_in_app]; auto.
Qed.

(** X16: no commit on one event alone.  From an instance with nothing
    pending, a hostname is on the list or has seen a call of [addHostname]
    after a run only if that was so before, or the run holds both a report
    and a transport failure about it that pass the guards. *)
Theorem commits_need_both_events (evs : list (Z * Event)) (s : Service) :
  webRequestErrorHostnames s = ∅ →
  nonRoutableHostnames s = ∅ →
  ∃ s',
    run evs s = Some ((), s')
    ∧ ∀ k, committed k s' →
           committed k s ∨ (reported_in evs k ∧ failed_in evs k).
Proof.
  intros Hw Hn.
  apply (run_provenance s evs [] s).
  - intros k. rewrite Hw, lookup_empty. by intros [? ?].
  - intros k. rewrite Hn, lookup_empty. by intros [? ?].
  - intros k Hk. by left.
Qed.

End Properties.

(** * The service on concrete events *)

#[local] Existing Instance Demo.env.

Example constructor_fresh : constructor = Some Demo.fresh.
Proof. reflexivity. Qed.

(** The classifier on the examples of the specification. *)
Example classifier_examples :
  fst <$> isUrlRoutable "http://127.0.0.1/" Demo.fresh = Some false
  ∧ fst <$> isUrlRoutable "http://8.8.8.8/" Demo.fresh = Some true
  ∧ fst <$> isUrlRoutable "http://example.com/" Demo.fresh = Some true
  ∧ (s ← snd <$> addHostname "example.com" Demo.fresh;
     fst <$> isUrlRoutable "http://example.com/" s) = Some false.
Proof. by vm_compute. Qed.

(** A gateway failure for tab 5 followed 300 ms later by the report: one
    commit, one notification, one retry. *)
Example end_to_end :
  (effects ∘ snd) <$>
    run [(0, WebRequest (Demo.gateway_failure 5 "http://blocked.test/"));
         (300, NonRoutableDomainFound "blocked.test")] Demo.fresh
  = Some [CallAddHostname "blocked.test"; StorageSet ["blocked.test"];
          NotifyListeners "blocked.test"; TabsUpdate 5 "http://blocked.test/"].
Proof. by vm_compute. Qed.

(** ** Correlation *)

(** Order independence at the end-to-end scenario. *)
Lemma order_independence_truthy_tab_witness :
  order_independent "blocked.test" "blocked.test"
    (Demo.gateway_failure 5 "http://blocked.test/") 0 300 Demo.fresh.
Proof.
  apply order_independence_truthy_tab.
  - unfold paired, no_pending. split_and!; reflexivity.
  - unfold within_ttl, VALUE_TTL_MS. lia.
  - simpl. lia.
  - reflexivity.
Defined.

(** Order independence fails when the failing request belongs to tab
    [0]: the failure arrives first, the report 300 ms later finds and
    removes its entry, but makes no call of [addHostname] and no
    [tabs.update]. *)
Lemma order_independence_fails_for_tab_zero :
  paired "blocked.test" "blocked.test"
    (Demo.gateway_failure 0 "http://blocked.test/") Demo.fresh
  ∧ within_ttl 0 300
  ∧ ¬ order_independent "blocked.test" "blocked.test"
        (Demo.gateway_failure 0 "http://blocked.test/") 0 300 Demo.fresh.
Proof.
  split_and!.
  - unfold paired, no_pending. split_and!; reflexivity.
  - unfold within_ttl, VALUE_TTL_MS. lia.
  - intros [(s1 & s2 & H1 & H2 & _ & (new & Heff & Hadd & _) & _) _].
    rewrite dispatch_webRequest in H1.
    rewrite (handleWebRequestErrors_record _ "blocked.test") in H1 by reflexivity.
    injection H1 as <-.
    rewrite dispatch_report in H2.
    rewrite (handleNonRoutableDomains_record _ "blocked.test") in H2 by reflexivity.
    injection H2 as <-.
    cbn in Heff. by destruct new.
Qed.

(** C1 on the code: a gateway failure of tab [0] and a report for the same
    hostname 300 ms apart.  When the failure comes first, the report handler
    finds its entry, removes it, commits nothing (the test of
    [webRequestError.tabId] is falsy for [0]) and records the report
    instead; when the report comes first, the failure handler commits and
    calls [tabs.update] for tab [0]. *)
Theorem tab_zero_pair_commits_in_one_order_only :
  (λ s, (effects s, nonRoutableList s,
         webRequestErrorHostnames s !! "blocked.test",
         nonRoutableHostnames s !! "blocked.test")) ∘ snd
    <$> run [(0, WebRequest (Demo.gateway_failure 0 "http://blocked.test/"));
             (300, NonRoutableDomainFound "blocked.test")] Demo.fresh
  = Some ([], [], None, Some (HostnameData.Build 300 None None))
  ∧ (λ s, (effects s, nonRoutableList s,
           webRequestErrorHostnames s !! "blocked.test",
           nonRoutableHostnames s !! "blocked.test")) ∘ snd
      <$> run [(0, NonRoutableDomainFound "blocked.test");
               (300, WebRequest (Demo.gateway_failure 0 "http://blocked.test/"))]
            Demo.fresh
    = Some ([CallAddHostname "blocked.test"; StorageSet ["blocked.test"];
             NotifyListeners "blocked.test"; TabsUpdate 0 "http://blocked.test/"],
            ["blocked.test"], None, None).
Proof. split; by vm_compute. Qed.

(** C2 on the code: a failure for [blocked.test] is recorded at time 0 and
    never matched; 5000 ms later, far beyond [VALUE_TTL_MS], a failure for
    [other.test] is inserted into the same store and [clearStaleValues]
    runs -- and the entry of [blocked.test] is still there. *)
Theorem stale_entry_survives_insertion :
  ∃ s',
    run [(0, WebRequest (Demo.gateway_failure 5 "http://blocked.test/"));
         (5000, WebRequest (Demo.gateway_failure 6 "http://other.test/"))]
      Demo.fresh = Some ((), s')
    ∧ webRequestErrorHostnames s' !! "other.test"
      = Some (HostnameData.Build 5000 (Some 6) (Some "http://other.test/"))
    ∧ webRequestErrorHostnames s' !! "blocked.test"
      = Some (HostnameData.Build 0 (Some 5) (Some "http://blocked.test/"))
    ∧ 0 < clock s' - VALUE_TTL_MS.
Proof.
  assert ((λ s, (webRequestErrorHostnames s !! "other.test",
                 webRequestErrorHostnames s !! "blocked.test",
                 clock s)) ∘ snd
          <$> run [(0, WebRequest (Demo.gateway_failure 5 "http://blocked.test/"));
                   (5000, WebRequest (Demo.gateway_failure 6 "http://other.test/"))]
                Demo.fresh
          = Some (Some (HostnameData.Build 5000 (Some 6) (Some "http://other.test/")),
                  Some (HostnameData.Build 0 (Some 5) (Some "http://blocked.test/")),
                  5000)) as Hrun by by vm_compute.
  destruct (run _ _) as [[[] s']|]; [|done].
  exists s'. cbn in Hrun. injection Hrun as -> -> ->. done.
Qed.

(** ** List store *)

(** The hostnames of [Demo.hosts] are pairwise distinct. *)
Lemma string_append_length (a b : string) :
  String.length (String.append a b) = (String.length a + String.length b)%nat.
Proof.
  induction a as [|c a IH]; [done|].
  change (S (String.length (String.append a b))
          = S (String.length a + String.length b)).
  by rewrite IH.
Qed.

Lemma string_append_cancel_r (a b t : string) :
  String.append a t = String.append b t → a = b.
Proof.
  revert b. induction a as [|c a IH]; intros [|d b] Heq.
  - done.
  - change (t = String d (String.append b t)) in Heq.
    apply (f_equal String.length) in Heq.
    change (String.length t = S (String.length (String.append b t))) in Heq.
    rewrite string_append_length in Heq. lia.
  - change (String c (String.append a t) = t) in Heq.
    apply (f_equal String.length) in Heq.
    change (S (String.length (String.append a t)) = String.length t) in Heq.
    rewrite string_append_length in Heq. lia.
  - change (String c (String.append a t) = String d (String.append b t)) in Heq.
    injection Heq as -> Heq. f_equal. by apply IH.
Qed.

Lemma host_inj (n m : nat) : Demo.host n = Demo.host m → n = m.
Proof.
  unfold Demo.host. intros Heq.
  change (String "h" (String.append (NilEmpty.string_of_uint (Nat.to_uint n)) ".test")
          = String "h" (String.append (NilEmpty.string_of_uint (Nat.to_uint m)) ".test"))
    in Heq.
  injection Heq as Heq.
  apply string_append_cancel_r in Heq.
  apply Unsigned.to_uint_inj.
  apply (f_equal NilEmpty.uint_of_string) in Heq.
  rewrite !NilEmpty.usu in Heq. by injection Heq.
Qed.

Lemma hosts_NoDup (n : nat) : NoDup (Demo.hosts n).
Proof.
  unfold Demo.hosts.
  assert (∀ l : list nat, NoDup l → NoDup (map Demo.host l)) as Hmap.
  { induction 1 as [|x l Hx Hl IH]; simpl; constructor; [|done].
    intros Hin. apply list_elem_of_In, in_map_iff in Hin as (y & Heq & Hy).
    apply host_inj in Heq as ->. by apply list_elem_of_In in Hy. }
  apply Hmap, NoDup_seq.
Qed.

Lemma burst_hostnames (hs : list string) : (Demo.burst hs).*2 = hs.
Proof. induction hs as [|h hs IH]; simpl; [done|]. by f_equal. Qed.

(** C4 as stated fails between flushes: 1001 distinct hostnames added
    within one throttle window leave a list of 1001 entries once the last
    [addHostname] has returned. *)
Lemma list_exceeds_maximum_between_flushes :
  ∃ s',
    addAll (Demo.burst (Demo.hosts 1001)) Demo.fresh = Some ((), s')
    ∧ ¬ list_invariant s'.
Proof.
  assert ((length ∘ nonRoutableList ∘ snd)
          <$> addAll (Demo.burst (Demo.hosts 1001)) Demo.fresh
          = Some 1001%nat) as Hrun by by vm_compute.
  destruct (addAll _ _) as [[[] s']|]; [|done].
  exists s'. split; [done|].
  cbn in Hrun. injection Hrun as Hlen.
  intros [_ Hmax]. rewrite Hlen in Hmax. unfold NON_ROUTABLE_MAX_LENGTH in Hmax. lia.
Qed.

(** When the timer of the throttle fires, the flush brings that list back
    to 951 entries, the 951 added last. *)
Example burst_then_timer :
  (nonRoutableList ∘ snd) <$>
    (s ← snd <$> addAll (Demo.burst (Demo.hosts 1001)) Demo.fresh;
     dispatch 1000 TimerFired s)
  = Some (drop 50 (Demo.hosts 1001)).
Proof. by vm_compute. Qed.

(** The list invariant at a list of 1001 entries: a flush evicts down to
    the maximum, a further hostname is appended or appended and trimmed. *)
Lemma list_invariant_holds_at_flushes_witness :
  (∃ s' new,
      addHostname "new.test" (set_nonRoutableList (Demo.hosts 1001) Demo.fresh)
        = Some ((), s')
      ∧ NoDup (nonRoutableList s')
      ∧ nonRoutableList s' `sublist_of` Demo.hosts 1001 ++ ["new.test"]
      ∧ effects s' = [] ++ CallAddHostname "new.test" :: new
      ∧ ((new = []
          ∧ nonRoutableList s'
            = if decide ("new.test" ∈ Demo.hosts 1001)
              then Demo.hosts 1001
              else Demo.hosts 1001 ++ ["new.test"])
         ∨ (new = [StorageSet (nonRoutableList s')]
            ∧ ("new.test" ∉ Demo.hosts 1001)
            ∧ nonRoutableList s' = trimList (Demo.hosts 1001 ++ ["new.test"])
            ∧ nonRoutableList s' `suffix_of` Demo.hosts 1001 ++ ["new.test"]
            ∧ "new.test" ∈ nonRoutableList s'
            ∧ (length (nonRoutableList s') ≤ NON_ROUTABLE_MAX_LENGTH)%nat)))
  ∧ (∃ s',
      updateStorage_func (set_nonRoutableList (Demo.hosts 1001) Demo.fresh)
        = Some ((), s')
      ∧ nonRoutableList s' = trimList (Demo.hosts 1001)
      ∧ effects s' = [] ++ [StorageSet (nonRoutableList s')]
      ∧ nonRoutableList s' `suffix_of` Demo.hosts 1001
      ∧ list_invariant s').
Proof.
  destruct (list_invariant_holds_at_flushes
              (set_nonRoutableList (Demo.hosts 1001) Demo.fresh)
              (hosts_NoDup 1001))
    as [Hadd Hflush].
  split; [exact (Hadd "new.test") | exact Hflush].
Defined.

(** Eviction at the overflow: 1001 distinct hostnames added to a fresh
    instance, then a flush. *)
Lemma flush_evicts_oldest_chunks_witness :
  ∃ s1 s2,
    addAll (Demo.burst (Demo.hosts 1001)) Demo.fresh = Some ((), s1)
    ∧ updateStorage_func s1 = Some ((), s2)
    ∧ nonRoutableList s2
        `suffix_of` nonRoutableList Demo.fresh ++ (Demo.burst (Demo.hosts 1001)).*2
    ∧ (length (nonRoutableList s2) ≤ NON_ROUTABLE_MAX_LENGTH)%nat
    ∧ (Nat.min (length (nonRoutableList Demo.fresh
                        ++ (Demo.burst (Demo.hosts 1001)).*2))
         (NON_ROUTABLE_MAX_LENGTH - CLEAR_CAPACITY + 1)
         ≤ length (nonRoutableList s2))%nat.
Proof.
  apply (proj2 (flush_evicts_oldest_chunks Demo.fresh)
           (Demo.burst (Demo.hosts 1001))).
  rewrite burst_hostnames. apply (hosts_NoDup 1001).
Defined.

Lemma addHostname_idempotent_witness :
  (∃ s1 s2,
      addHostname "example.com"
        (set_nonRoutableList ["a.test"; "b.test"] Demo.fresh) = Some ((), s1)
      ∧ addHostname "example.com" s1 = Some ((), s2)
      ∧ nonRoutableList s2 = nonRoutableList s1
      ∧ count_occ string_dec (nonRoutableList s2) "example.com" = 1%nat
      ∧ List.filter is_notify (effects s2) = List.filter is_notify [])
  ∧ (∃ s' new,
      addNewNonRoutableDomain "example.com"
        (set_nonRoutableList ["a.test"; "b.test"] Demo.fresh) = Some ((), s')
      ∧ effects s' = [] ++ new
      ∧ List.filter is_notify new = [NotifyListeners "example.com"]
      ∧ count_occ string_dec (nonRoutableList s') "example.com" = 1%nat
      ∧ ("example.com" ∈ ["a.test"; "b.test"] →
         nonRoutableList s' = ["a.test"; "b.test"])).
Proof.
  apply (addHostname_idempotent "example.com"
           (set_nonRoutableList ["a.test"; "b.test"] Demo.fresh)).
  apply (bool_decide_unpack _). vm_compute. reflexivity.
Defined.

(** C6 as stated fails in its notification half: two matched pairs for one
    hostname, five seconds apart, put one entry on the list and send two
    notifications. *)
Lemma second_commit_notifies_again :
  ∃ s',
    run [(0, WebRequest (Demo.gateway_failure 5 "http://blocked.test/"));
         (300, NonRoutableDomainFound "blocked.test");
         (5000, WebRequest (Demo.gateway_failure 5 "http://blocked.test/"));
         (5300, NonRoutableDomainFound "blocked.test")] Demo.fresh
    = Some ((), s')
    ∧ nonRoutableList s' = ["blocked.test"]
    ∧ List.filter is_notify (effects s')
      = [NotifyListeners "blocked.test"; NotifyListeners "blocked.test"]
    ∧ ¬ notifications_within_entries s'.
Proof.
  assert ((λ s, (nonRoutableList s, List.filter is_notify (effects s))) ∘ snd
          <$> run [(0, WebRequest (Demo.gateway_failure 5 "http://blocked.test/"));
                   (300, NonRoutableDomainFound "blocked.test");
                   (5000, WebRequest (Demo.gateway_failure 5 "http://blocked.test/"));
                   (5300, NonRoutableDomainFound "blocked.test")] Demo.fresh
          = Some (["blocked.test"],
                  [NotifyListeners "blocked.test"; NotifyListeners "blocked.test"]))
    as Hrun by by vm_compute.
  destruct (run _ _) as [[[] s']|]; [|done].
  exists s'. cbn in Hrun. injection Hrun as Hl Hn.
  split_and!; try done.
  unfold notifications_within_entries. rewrite Hl, Hn. cbn. lia.
Qed.

(** ** Construction *)

Lemma constructor_parses_every_range_or_throws_witness :
  @constructor (Demo.imports ["10.0.0.0/8"; "10.0.0.0/33"]) = None.
Proof.
  apply (proj1 (@constructor_parses_every_range_or_throws
                  (Demo.imports ["10.0.0.0/8"; "10.0.0.0/33"])) "10.0.0.0/33").
  - simpl. apply (bool_decide_unpack _). by vm_compute.
  - reflexivity.
Defined.

(** ** Guards *)

Lemma handlers_ignore_what_fails_their_guards_witness :
  handleNonRoutableDomains "" Demo.fresh = Some ((), Demo.fresh)
  ∧ handleWebRequestErrors
      (Details.Build "http://blocked.test/img.png" "image" 5 (Some 502) None)
      Demo.fresh = Some ((), Demo.fresh).
Proof.
  split.
  - apply (proj1 (handlers_ignore_what_fails_their_guards Demo.fresh)).
    left. reflexivity.
  - apply (proj1 (proj2 (handlers_ignore_what_fails_their_guards Demo.fresh))).
    left. simpl. unfold MAIN_FRAME. discriminate.
Defined.

Lemma falsy_failure_entry_is_consumed_without_commit_witness :
  ∃ s',
    handleNonRoutableDomains "blocked.test"
      (set_webRequestErrorHostnames
         {[ "blocked.test" := HostnameData.Build 0 (Some 0) (Some "http://blocked.test/") ]}
         Demo.fresh) = Some ((), s')
    ∧ webRequestErrorHostnames s' = delete "blocked.test"
        {[ "blocked.test" := HostnameData.Build 0 (Some 0) (Some "http://blocked.test/") ]}
    ∧ nonRoutableHostnames s' = <[ "blocked.test" := HostnameData.Build 0 None None ]> ∅
    ∧ effects s' = []
    ∧ nonRoutableList s' = [].
Proof.
  apply (falsy_failure_entry_is_consumed_without_commit
           "blocked.test" "blocked.test"
           (HostnameData.Build 0 (Some 0) (Some "http://blocked.test/"))).
  - reflexivity.
  - reflexivity.
  - reflexivity.
  - reflexivity.
  - left. reflexivity.
Defined.

(** ** Further properties on concrete events *)

Lemma run_keeps_stores_disjoint_witness :
  ∃ s',
    run [(0, WebRequest (Demo.gateway_failure 5 "http://blocked.test/"));
         (300, NonRoutableDomainFound "other.test")] Demo.fresh = Some ((), s')
    ∧ stores_disjoint s'.
Proof.
  apply run_keeps_stores_disjoint.
  intros h. left. reflexivity.
Defined.

Lemma events_touch_only_their_hostname_witness :
  ∃ s',
    dispatch 0 (WebRequest (Demo.gateway_failure 5 "http://blocked.test/"))
      Demo.fresh = Some ((), s')
    ∧ webRequestErrorHostnames s' !! "other.test"
      = webRequestErrorHostnames Demo.fresh !! "other.test"
    ∧ nonRoutableHostnames s' !! "other.test"
      = nonRoutableHostnames Demo.fresh !! "other.test".
Proof.
  apply events_touch_only_their_hostname.
  vm_compute. discriminate.
Defined.

Lemma run_keeps_list_duplicate_free_witness :
  ∃ s',
    run [(0, WebRequest (Demo.gateway_failure 5 "http://blocked.test/"));
         (300, NonRoutableDomainFound "blocked.test")] Demo.fresh = Some ((), s')
    ∧ NoDup (nonRoutableList s').
Proof.
  apply run_keeps_list_duplicate_free.
  simpl. apply NoDup_nil_2.
Defined.

Lemma list_is_persisted_or_flush_is_scheduled_witness :
  ∃ s',
    addAll [(0, "a.test"); (1, "b.test")] Demo.fresh = Some ((), s')
    ∧ persisted_or_scheduled [] s'.
Proof.
  apply (proj2 (list_is_persisted_or_flush_is_scheduled [] Demo.fresh
                  ltac:(right; split; [reflexivity | simpl; lia]))).
Defined.

Lemma pending_entries_match_at_any_age_witness :
  ∃ s',
    dispatch 3600000 (NonRoutableDomainFound "blocked.test")
      (set_webRequestErrorHostnames
         {[ "blocked.test" := HostnameData.Build 0 (Some 5) (Some "http://blocked.test/") ]}
         Demo.fresh) = Some ((), s')
    ∧ commits "blocked.test" 5 "http://blocked.test/"
        (set_webRequestErrorHostnames
           {[ "blocked.test" := HostnameData.Build 0 (Some 5) (Some "http://blocked.test/") ]}
           Demo.fresh) s'.
Proof.
  apply (proj1 (pending_entries_match_at_any_age "blocked.test" _ eq_refl)
           "blocked.test" 0 5 "http://blocked.test/" 3600000).
  - reflexivity.
  - reflexivity.
  - reflexivity.
  - lia.
  - reflexivity.
Defined.

Lemma listed_hostname_is_notified_again_witness :
  ∃ s',
    handleWebRequestErrors (Demo.gateway_failure 5 "http://blocked.test/")
      (set_nonRoutableList ["blocked.test"]
         (set_nonRoutableHostnames
            {[ "blocked.test" := HostnameData.Build 0 None None ]} Demo.fresh))
    = Some ((), s')
    ∧ effects s'
      = [CallAddHostname "blocked.test"; NotifyListeners "blocked.test";
         TabsUpdate 5 "http://blocked.test/"]
    ∧ nonRoutableList s' = ["blocked.test"]
    ∧ updateStorage_throttle s' = Throttle.initial.
Proof.
  apply (listed_hostname_is_notified_again "blocked.test"
           (Demo.gateway_failure 5 "http://blocked.test/")
           (HostnameData.Build 0 None None)).
  - reflexivity.
  - reflexivity.
  - reflexivity.
  - reflexivity.
  - simpl. apply (bool_decide_unpack _). by vm_compute.
Defined.

Lemma added_hostname_is_not_routable_witness :
  ∃ s',
    addHostname "example.com" Demo.fresh = Some ((), s')
    ∧ fst <$> isUrlRoutable "http://example.com/" s' = Some false.
Proof.
  apply added_hostname_is_not_routable.
  - reflexivity.
  - reflexivity.
Defined.

Lemma learning_never_makes_routable_witness :
  fst <$> isUrlRoutable "http://example.com/"
            (set_nonRoutableList ["example.com"; "blocked.test"] Demo.fresh)
  = Some false.
Proof.
  apply (learning_never_makes_routable "http://example.com/"
           (set_nonRoutableList ["example.com"] Demo.fresh)).
  - reflexivity.
  - simpl. intros h Hh.
    apply list_elem_of_singleton in Hh as ->. apply list_elem_of_here.
  - by vm_compute.
Defined.

Lemma configured_ranges_hold_along_runs_witness :
  ∃ s',
    run [(0, WebRequest (Demo.gateway_failure 5 "http://127.0.0.1/"));
         (300, NonRoutableDomainFound "127.0.0.1")] Demo.fresh = Some ((), s')
    ∧ fst <$> isUrlRoutable "http://127.0.0.1/" Demo.fresh = Some false
    ∧ fst <$> isUrlRoutable "http://127.0.0.1/" s' = Some false.
Proof.
  apply (configured_ranges_hold_along_runs "http://127.0.0.1/" "127.0.0.1"
           (2130706433 : @V4 Demo.env) ((2130706432, 8) : @CIDR Demo.env)).
  - reflexivity.
  - reflexivity.
  - reflexivity.
  - reflexivity.
  - simpl. apply (bool_decide_unpack _). by vm_compute.
  - reflexivity.
Defined.

Lemma stored_hostnames_are_not_routable_after_init_witness :
  ∃ s' s0,
    init (Some ["example.com"]) Demo.fresh = Some ((), s')
    ∧ nonRoutableList s' = ["example.com"]
    ∧ fst <$> isUrlRoutable "http://example.com/" s' = Some false
    ∧ init None Demo.fresh = Some ((), s0)
    ∧ nonRoutableList s0 = [].
Proof.
  apply (stored_hostnames_are_not_routable_after_init ["example.com"]
           "http://example.com/" "example.com").
  - reflexivity.
  - reflexivity.
  - apply list_elem_of_here.
Defined.

Lemma pending_entries_never_expire_witness :
  ∃ s',
    run [(5000, WebRequest (Demo.gateway_failure 6 "http://other.test/"));
         (60000, NonRoutableDomainFound "third.test")]
      (set_webRequestErrorHostnames
         {[ "blocked.test" := HostnameData.Build 0 (Some 5) (Some "http://blocked.test/") ]}
         Demo.fresh) = Some ((), s')
    ∧ webRequestErrorHostnames s' !! "blocked.test"
      = webRequestErrorHostnames
          (set_webRequestErrorHostnames
             {[ "blocked.test" := HostnameData.Build 0 (Some 5) (Some "http://blocked.test/") ]}
             Demo.fresh) !! "blocked.test"
    ∧ nonRoutableHostnames s' !! "blocked.test"
      = nonRoutableHostnames
          (set_webRequestErrorHostnames
             {[ "blocked.test" := HostnameData.Build 0 (Some 5) (Some "http://blocked.test/") ]}
             Demo.fresh) !! "blocked.test".
Proof.
  apply pending_entries_never_expire.
  repeat constructor; vm_compute; discriminate.
Defined.

Lemma commits_need_both_events_witness :
  ∃ s',
    run [(0, WebRequest (Demo.gateway_failure 5 "http://blocked.test/"));
         (5000, WebRequest (Demo.gateway_failure 6 "http://other.test/"))]
      Demo.fresh = Some ((), s')
    ∧ ∀ k, committed k s' →
           committed k Demo.fresh
           ∨ (reported_in
                [(0, WebRequest (Demo.gateway_failure 5 "http://blocked.test/"));
                 (5000, WebRequest (Demo.gateway_failure 6 "http://other.test/"))] k
              ∧ failed_in
                  [(0, WebRequest (Demo.gateway_failure 5 "http://blocked.test/"));
                   (5000, WebRequest (Demo.gateway_failure 6 "http://other.test/"))] k).
Proof.
  apply commits_need_both_events.
  - reflexivity.
  - reflexivity.
Defined.
